(** * pyznap [process.py]: ZFS subprocess wrapper

    A shallow embedding of [src/process.py] (the error classes, the
    overriding [CompletedProcess.check_returncode], [check_output] and
    [run]) together with the properties stated about it.

    Python [str] values are lists of Unicode code points ([N]); the
    behaviour of the interpreter and of the standard library that the file
    relies on ([re], [str.splitlines], [str.split], [subprocess.Popen],
    keyword-argument binding) is written out next to the code that uses
    it. *)

From Stdlib Require Import ZArith NArith List String Ascii Bool Lia.
From stdpp Require Import gmap strings list fin_maps.

Local Open Scope N_scope.

(** ** Strings *)

Abbreviation char := N (only parsing).
Abbreviation str := (list N) (only parsing).

(** Code points of a literal. *)
Definition str_of (s : string) : str :=
  List.map N_of_ascii (list_ascii_of_string s).

Definition TAB : char := 9.
Definition NL : char := 10.
Definition CR : char := 13.
Definition SP : char := 32.
Definition QUOTE : char := 39.
Definition COLON : char := 58.

Definition str_eqb (a b : str) : bool := bool_decide (a = b).

(** [sep.join(items)] for a one-character separator. *)
Fixpoint join (sep : char) (items : list str) : str :=
  match items with
  | [] => []
  | [x] => x
  | x :: rest => x ++ sep :: join sep rest
  end.

(** ** The subset of [re] used by the pattern

    A backtracking matcher in continuation-passing style: alternatives are
    tried in the priority order of Python's engine (greedy repetition tries
    one more iteration first, lazy repetition tries the rest of the pattern
    first), and the first complete match wins.  No flag is set in the source,
    so [^] matches at offset 0 only, [$] at the end or before a final newline,
    and [.] anything but a newline. *)

Inductive regex : Type :=
| Bol                                  (* ^ *)
| Eol                                  (* $ *)
| Chr (c : char)                       (* a literal character *)
| Dot                                  (* . *)
| NotSet (cs : list char)              (* [^...] *)
| Cat (r1 r2 : regex)
| Star (greedy : bool) (r : regex)     (* r* and r*? *)
| Grp (n : nat) (r : regex).           (* capturing group number n *)

Record mstate : Type := MState {
  pos : nat;                           (* offset into the subject *)
  rest : str;                          (* the subject from [pos] on *)
  groups : list (nat * str)            (* captures, latest first *)
}.

Abbreviation cont := (mstate -> option mstate) (only parsing).

Definition step1 (p : char -> bool) (k : cont) (st : mstate) : option mstate :=
  match rest st with
  | c :: s' => if p c then k (MState (S (pos st)) s' (groups st)) else None
  | [] => None
  end.

Definition at_eol (s : str) : bool :=
  match s with
  | [] => true
  | [c] => c =? NL
  | _ => false
  end.

Definition set_group (n : nat) (v : str) (st : mstate) : mstate :=
  MState (pos st) (rest st) ((n, v) :: groups st).

Fixpoint assoc (n : nat) (g : list (nat * str)) : option str :=
  match g with
  | [] => None
  | (i, v) :: g' => if Nat.eqb i n then Some v else assoc n g'
  end.

Definition group (m : mstate) (n : nat) : option str := assoc n (groups m).

(** The text consumed between two states of one match. *)
Definition consumed (st st' : mstate) : str :=
  take (length (rest st) - length (rest st')) (rest st).

Fixpoint star_loop (greedy : bool) (body : cont -> cont) (k : cont)
    (n : nat) (st : mstate) : option mstate :=
  match n with
  | O => k st
  | S n' =>
      if greedy then
        match body (star_loop greedy body k n') st with
        | Some m => Some m
        | None => k st
        end
      else
        match k st with
        | Some m => Some m
        | None => body (star_loop greedy body k n') st
        end
  end.

Fixpoint rmatch (r : regex) (k : cont) (st : mstate) : option mstate :=
  match r with
  | Bol => if Nat.eqb (pos st) 0 then k st else None
  | Eol => if at_eol (rest st) then k st else None
  | Chr c => step1 (N.eqb c) k st
  | Dot => step1 (fun x => negb (x =? NL)) k st
  | NotSet cs => step1 (fun x => negb (existsb (N.eqb x) cs)) k st
  | Cat r1 r2 => rmatch r1 (rmatch r2 k) st
  | Star g r' => star_loop g (rmatch r') k (length (rest st)) st
  | Grp n r' => rmatch r' (fun st' => k (set_group n (consumed st st') st')) st
  end.

(** [re.search]: the leftmost offset at which the pattern matches. *)
Fixpoint search_from (r : regex) (p : nat) (s : str) : option mstate :=
  match rmatch r Some (MState p s []) with
  | Some m => Some m
  | None =>
      match s with
      | [] => None
      | _ :: s' => search_from r (S p) s'
      end
  end.

Definition re_search (r : regex) (s : str) : option mstate :=
  search_from r 0 s.

Definition plus (r : regex) : regex := Cat r (Star true r).

Definition lit (s : str) (r : regex) : regex :=
  fold_right (fun c acc => Cat (Chr c) acc) r s.

Definition nonspace : regex := NotSet [SP].

(** [r"^cannot ([^ ]+(?: [^ ]+)*?) ([^ ]+): (.+)$"] *)
Definition pattern : regex :=
  Cat Bol
   (lit (str_of "cannot ")
     (Cat (Grp 1 (Cat (plus nonspace) (Star false (Cat (Chr SP) (plus nonspace)))))
       (Cat (Chr SP)
         (Cat (Grp 2 (plus nonspace))
           (lit (str_of ": ")
             (Cat (Grp 3 (plus Dot)) Eol)))))).


(** ** Values and exceptions *)

(** The Python values that reach this module. *)
Inductive pyval : Type :=
| PyNone
| PyBool (b : bool)
| PyInt (z : Z)
| PyStr (s : str)
| PyBytes (b : list N)
| PyList (items : list pyval)
| PyObj (id : N).                      (* any other object, e.g. an open file *)

(** [bool(v)] *)
Definition truthy (v : pyval) : bool :=
  match v with
  | PyNone => false
  | PyBool b => b
  | PyInt z => negb (z =? 0)%Z
  | PyStr s => negb (bool_decide (s = []))
  | PyBytes b => negb (bool_decide (b = []))
  | PyList l => match l with [] => false | _ => true end
  | PyObj _ => true
  end.

(** [subprocess.PIPE] *)
Definition PIPE : pyval := PyInt (-1).

(** The five subclasses of [ZFSError]. *)
Inductive zfs_error : Type :=
| DatasetNotFoundError
| DatasetExistsError
| DatasetBusyError
| HoldTagNotFoundError
| HoldTagExistsError.

Definition ENOENT : Z := 2.
Definition EBUSY : Z := 16.
Definition EEXIST : Z := 17.

Definition errno (e : zfs_error) : Z :=
  match e with
  | DatasetNotFoundError => ENOENT
  | DatasetExistsError => EEXIST
  | DatasetBusyError => EBUSY
  | HoldTagNotFoundError => ENOENT
  | HoldTagExistsError => EEXIST
  end.

Definition strerror (e : zfs_error) : str :=
  match e with
  | DatasetNotFoundError => str_of "dataset does not exist"
  | DatasetExistsError => str_of "dataset already exists"
  | DatasetBusyError => str_of "dataset is busy"
  | HoldTagNotFoundError => str_of "no such tag on this dataset"
  | HoldTagExistsError => str_of "tag already exists on this dataset"
  end.

(** The exceptions the module raises or lets through.  [OtherError id] is an
    exception of a collaborator's own that the module's handlers do not name:
    only its identity is kept, not its Python class, which may be an
    [OSError], a transport fault, an interrupt, or a [ValueError] such as the
    one [Popen] raises for an embedded null byte or the [UnicodeDecodeError]
    of a stream that does not decode.  The module only ever passes it on. *)
Inductive exn : Type :=
| ZFSError (cls : zfs_error) (dataset : str)
| CalledProcessError (returncode : Z) (cmd output err : pyval)
| TimeoutExpired (cmd timeout output err : pyval)
| ValueError (msg : string)
| TypeError
| IndexError
| AttributeError
| SocketTimeout                        (* socket.timeout *)
| OtherError (id : N).                 (* anything else a collaborator raises *)

Inductive result (A : Type) : Type :=
| Ok (a : A)
| Raise (e : exn).
Arguments Ok {A} a.
Arguments Raise {A} e.

(** ** [CompletedProcess.check_returncode] *)

Record CompletedProcess : Type := mkCompletedProcess {
  args : pyval;
  returncode : Z;
  stdout : pyval;
  stderr : pyval
}.

(** [s[start:stop]] for non-negative bounds. *)
Definition slice (start stop : nat) (s : str) : str :=
  take (stop - start) (drop start s).

(** Lines 50-51: strip one pair of surrounding single quotes. *)
Definition unquote (dataset : str) : result str :=
  match head dataset, last dataset with
  | Some a, Some b =>
      if (a =? b) && (b =? QUOTE)
      then Ok (slice 1 (length dataset - 1) dataset)
      else Ok dataset
  | _, _ => Raise IndexError
  end.

Definition known_errors : list zfs_error :=
  [DatasetNotFoundError; DatasetExistsError; DatasetBusyError;
   HoldTagNotFoundError; HoldTagExistsError].

(** [subprocess.CompletedProcess.check_returncode], the superclass method. *)
Definition super_check_returncode (self : CompletedProcess) : result unit :=
  if (returncode self =? 0)%Z then Ok tt
  else Raise (CalledProcessError (returncode self) (args self)
                (stdout self) (stderr self)).

Definition check_returncode (self : CompletedProcess) : result unit :=
  if (returncode self =? 1)%Z then
    match stderr self with
    | PyStr text =>
        match re_search pattern text with
        | Some m =>
            match group m 2, group m 3 with
            | Some dataset, Some reason =>
                match unquote dataset with
                | Ok dataset =>
                    match List.find (fun error => str_eqb reason (strerror error))
                            known_errors with
                    | Some error => Raise (ZFSError error dataset)
                    | None => super_check_returncode self
                    end
                | Raise e => Raise e
                end
            | _, _ => Raise TypeError
            end
        | None => super_check_returncode self
        end
    | _ => Raise TypeError              (* re.search on None or bytes *)
    end
  else super_check_returncode self.

(** ** Decoding the tabular output (line 84) *)

(** The line boundaries of [str.splitlines]. *)
Definition is_linebreak (c : char) : bool :=
  existsb (N.eqb c) [10; 11; 12; 13; 28; 29; 30; 133; 8232; 8233].

(** [s.splitlines()]: a carriage return directly followed by a line feed is
    one boundary, and no empty line is reported after the last boundary. *)
Fixpoint splitlines (s : str) : list str :=
  match s with
  | [] => []
  | c :: s' =>
      if is_linebreak c then
        [] :: (if c =? CR then
                 match s' with
                 | d :: s'' => if d =? NL then splitlines s'' else splitlines s'
                 | [] => []
                 end
               else splitlines s')
      else
        match splitlines s' with
        | [] => [[c]]
        | l :: ls => (c :: l) :: ls
        end
  end.

(** [s.split(sep)] for a one-character separator. *)
Fixpoint split (sep : char) (s : str) : list str :=
  match s with
  | [] => [[]]
  | c :: s' =>
      if c =? sep then [] :: split sep s'
      else
        match split sep s' with
        | l :: ls => (c :: l) :: ls
        | [] => [[c]]
        end
  end.

(** [None if out is None else [line.split('\t') for line in out.splitlines()]].
    A [bytes] value has lines too, but splitting one of them on a [str]
    separator is a [TypeError]. *)
Definition decode_output (out : pyval) : result (option (list (list str))) :=
  match out with
  | PyNone => Ok None
  | PyStr s => Ok (Some (List.map (split TAB) (splitlines s)))
  | PyBytes b => if bool_decide (b = []) then Ok (Some []) else Raise TypeError
  | _ => Raise AttributeError
  end.

(** Records written the way the wrapped tool prints them: fields joined by
    tabs, records joined by newlines. *)
Definition encode_records (records : list (list str)) : str :=
  join NL (List.map (join TAB) records).

(** ** Effects: calls into the operating system and the remote session

    A run is a trace of the calls the module makes to its collaborators
    together with its outcome.  What the collaborators answer is given by a
    description of the world ([local_os], [ssh_client]): a call returns, runs
    into its timeout, or fails with an exception of the collaborator's own
    (an [OSError], a transport fault, an interrupt). *)

Inductive outcome (A : Type) : Type :=
| Returns (a : A)
| TimesOut
| Fails (id : N).
Arguments Returns {A} a.
Arguments TimesOut {A}.
Arguments Fails {A} id.

Inductive event : Type :=
| EvPopen (bound : gmap string pyval)            (* a child was spawned *)
| EvCommunicate (input timeout : pyval)          (* process.communicate(input, timeout) *)
| EvKill
| EvWait
| EvPoll
| EvExit                                         (* Popen.__exit__ *)
| EvExecCommand (cmd : pyval) (extra : list pyval) (timeout : pyval)
| EvCopyFileObj (src : pyval) (length : Z)       (* shutil.copyfileobj(src, stdin, length) *)
| EvStdinClose
| EvRecvExitStatus
| EvReadlines (of_stderr : bool).

Definition M (A : Type) : Type := (list event * result A)%type.

Definition ret {A} (a : A) : M A := ([], Ok a).
Definition raise {A} (e : exn) : M A := ([], Raise e).
Definition lift {A} (r : result A) : M A := ([], r).

(** One call to a collaborator: it is recorded and answers [r]. *)
Definition call {A} (ev : event) (r : result A) : M A := ([ev], r).

(** The exception a collaborator's outcome shows up as: the timeout the
    caller's handler names, or the collaborator's own exception, whatever its
    class. *)
Definition answer {A} (on_timeout : exn) (o : outcome A) : result A :=
  match o with
  | Returns a => Ok a
  | TimesOut => Raise on_timeout
  | Fails id => Raise (OtherError id)
  end.

Definition bind {A B} (m : M A) (f : A -> M B) : M B :=
  match m with
  | (tr, Ok a) => let '(tr', r) := f a in (tr ++ tr', r)
  | (tr, Raise e) => (tr, Raise e)
  end.

(** [try: body except: handler] *)
Definition try_except {A} (body : M A) (handler : exn -> M A) : M A :=
  match body with
  | (tr, Raise e) => let '(tr', r) := handler e in (tr ++ tr', r)
  | (tr, Ok a) => (tr, Ok a)
  end.

(** [with ... as process: body]: the exit handler runs on every path. *)
Definition finally {A} (body : M A) (ev : event) : M A :=
  let '(tr, r) := body in (tr ++ [ev], r).

Declare Scope run_scope.
Delimit Scope run_scope with run.
Notation "x <- m ;; k" := (bind m (fun x => k))
  (at level 100, m at next level, right associativity) : run_scope.
Notation "m ;;; k" := (bind m (fun _ => k))
  (at level 100, right associativity) : run_scope.
Local Open Scope run_scope.

Definition has_key (k : string) (kw : gmap string pyval) : bool :=
  match kw !! k with Some _ => true | None => false end.

(** [kw.get(k, d)] *)
Definition get (k : string) (d : pyval) (kw : gmap string pyval) : pyval :=
  match kw !! k with Some v => v | None => d end.

(** *** [subprocess.Popen] *)

(** The parameters of [Popen.__init__] that may be passed by position, in
    order, and those that are keyword-only. *)
Definition popen_positional : list string :=
  ["args"; "bufsize"; "executable"; "stdin"; "stdout"; "stderr";
   "preexec_fn"; "close_fds"; "shell"; "cwd"; "env"; "universal_newlines";
   "startupinfo"; "creationflags"; "restore_signals"; "start_new_session";
   "pass_fds"]%string.

Definition popen_keyword_only : list string :=
  ["user"; "group"; "extra_groups"; "encoding"; "errors"; "text"; "umask";
   "pipesize"; "process_group"]%string.

Definition string_in (k : string) (l : list string) : bool :=
  bool_decide (k ∈ l).

(** Binding of the call [Popen] receives (positional [popenargs], keyword
    [kwargs]): too many positional arguments,
    an unknown keyword, a parameter given twice or a missing [args] is a
    [TypeError] raised before anything is spawned. *)
Definition popen_bind (popenargs : list pyval) (kwargs : gmap string pyval)
    : result (gmap string pyval) :=
  if negb (length popenargs <=? length popen_positional)%nat then Raise TypeError
  else
    let positional : gmap string pyval :=
      list_to_map (zip popen_positional popenargs) in
    if negb (forallb (fun k => string_in k (popen_positional ++ popen_keyword_only))
               (List.map fst (map_to_list kwargs)))
    then Raise TypeError
    else if existsb (fun k => has_key k positional)
              (List.map fst (map_to_list kwargs))
    then Raise TypeError
    else
      let bound := positional ∪ kwargs in
      if has_key "args" bound then Ok bound else Raise TypeError.

(** What one child process does. *)
Record child : Type := mkChild {
  first_communicate : outcome (str * str); (* the wait under [timeout] *)
  drained : str * str;                     (* what is left to read after a kill *)
  exit_status : Z
}.

(** The local host: whether a child can be started with the given
    arguments (if not, which error [Popen] raises), and what it does. *)
Record local_os : Type := mkLocalOs {
  spawn : gmap string pyval -> child + N
}.

Definition is_pipe (v : pyval) : bool :=
  match v with PyInt z => (z =? -1)%Z | _ => false end.

Definition text_mode (bound : gmap string pyval) : bool :=
  truthy (get "encoding" PyNone bound) || truthy (get "errors" PyNone bound)
  || truthy (get "text" PyNone bound)
  || truthy (get "universal_newlines" PyNone bound).

(** What [communicate] returns for one stream: [None] unless the stream is a
    pipe, text in text mode and bytes otherwise. *)
Definition captured (bound : gmap string pyval) (stream : string) (raw : str) : pyval :=
  if is_pipe (get stream PyNone bound)
  then if text_mode bound then PyStr raw else PyBytes raw
  else PyNone.

Definition captured_pair (bound : gmap string pyval) (raw : str * str) : pyval * pyval :=
  (captured bound "stdout" (fst raw), captured bound "stderr" (snd raw)).

Definition Popen (os : local_os) (popenargs : list pyval)
    (kwargs : gmap string pyval) : M (gmap string pyval * child) :=
  bound <- lift (popen_bind popenargs kwargs) ;;
  match spawn os bound with
  | inl c => call (EvPopen bound) (Ok (bound, c))
  | inr id => raise (OtherError id)
  end.

Definition is_timeout_expired (e : exn) : bool :=
  match e with TimeoutExpired _ _ _ _ => true | _ => false end.

(** [popenargs[0]] *)
Definition first_arg (popenargs : list pyval) : result pyval :=
  match popenargs with
  | a :: _ => Ok a
  | [] => Raise IndexError
  end.

(** *** The remote session *)

(** A connected [paramiko.client.SSHClient], described by what one command
    execution on it answers. *)
Record ssh_client : Type := mkSshClient {
  exec_command : pyval -> list pyval -> pyval -> outcome unit;
  copy_to_stdin : pyval -> outcome unit;
  stdin_close : outcome unit;
  recv_exit_status : outcome Z;
  stdout_readlines : outcome (list str);
  stderr_readlines : outcome (list str)
}.

(** [shutil.copyfileobj(src, stdin, length)]: only an object can have the
    [read] method the copy needs. *)
Definition copyfileobj (ssh : ssh_client) (src : pyval) (length : Z) : M unit :=
  call (EvCopyFileObj src length)
    (match src with
     | PyObj _ => answer SocketTimeout (copy_to_stdin ssh src)
     | _ => Raise AttributeError
     end).

Fixpoint all_str (items : list pyval) : option (list str) :=
  match items with
  | [] => Some []
  | PyStr s :: items' =>
      match all_str items' with
      | Some l => Some (s :: l)
      | None => None
      end
  | _ :: _ => None
  end.

(** Line 106: [' '.join(popenargs[0]) if not isinstance(popenargs[0], str)
    else popenargs[0]] *)
Definition remote_args (popenargs : list pyval) : result pyval :=
  match popenargs with
  | [] => Raise IndexError
  | PyStr s :: _ => Ok (PyStr s)
  | PyList items :: _ =>
      match all_str items with
      | Some l => Ok (PyStr (join SP l))
      | None => Raise TypeError
      end
  | PyBytes [] :: _ => Ok (PyStr [])
  | _ :: _ => Raise TypeError
  end.

(** ** [run] (lines 87-122) *)

(** The local branch, lines 91-104 and the return at line 122. *)
Definition run_local (os : local_os) (popenargs : list pyval)
    (timeout check : pyval) (kwargs : gmap string pyval) : M CompletedProcess :=
  p <- Popen os popenargs kwargs ;;
  let '(bound, c) := p in
  let process_args := get "args" PyNone bound in
  r <- finally
         (streams <-
            try_except
              (raw <- call (EvCommunicate PyNone timeout)
                        (answer (TimeoutExpired process_args timeout PyNone PyNone)
                           (first_communicate c)) ;;
               ret (captured_pair bound raw))
              (fun e =>
                 if is_timeout_expired e then
                   call EvKill (Ok tt) ;;;
                   s <- call (EvCommunicate PyNone PyNone)
                          (Ok (captured_pair bound (drained c))) ;;
                   raise (TimeoutExpired process_args timeout (fst s) (snd s))
                 else
                   call EvKill (Ok tt) ;;;
                   call EvWait (Ok tt) ;;;
                   raise e) ;;
          retcode <- call EvPoll (Ok (exit_status c)) ;;
          if truthy check && negb (retcode =? 0)%Z
          then raise (CalledProcessError retcode process_args
                        (fst streams) (snd streams))
          else ret (retcode, streams))
         EvExit ;;
  a <- lift (first_arg popenargs) ;;
  ret (mkCompletedProcess a (fst r) (fst (snd r)) (snd (snd r))).

(** The remote branch, lines 106-120 and the return at line 122. *)
Definition run_remote (ssh : ssh_client) (popenargs : list pyval)
    (timeout check : pyval) (kwargs : gmap string pyval) : M CompletedProcess :=
  cmd <- lift (remote_args popenargs) ;;
  a <- lift (first_arg popenargs) ;;
  r <- try_except
         (call (EvExecCommand cmd (tail popenargs) timeout)
            (answer SocketTimeout
               (exec_command ssh cmd (tail popenargs) timeout)) ;;;
          (if truthy (get "stdin" PyNone kwargs)
           then copyfileobj ssh (get "stdin" PyNone kwargs) (128 * 1024)
           else ret tt) ;;;
          call EvStdinClose (answer SocketTimeout (stdin_close ssh)) ;;;
          retcode <- call EvRecvExitStatus
                       (answer SocketTimeout (recv_exit_status ssh)) ;;
          out <- call (EvReadlines false)
                   (answer SocketTimeout (stdout_readlines ssh)) ;;
          err <- call (EvReadlines true)
                   (answer SocketTimeout (stderr_readlines ssh)) ;;
          ret (retcode, (PyStr (concat out), PyStr (concat err))))
         (fun e =>
            match e with
            | SocketTimeout => raise (TimeoutExpired a timeout PyNone PyNone)
            | _ => raise e
            end) ;;
  if truthy check && negb (fst r =? 0)%Z
  then raise (CalledProcessError (fst r) a (fst (snd r)) (snd (snd r)))
  else ret (mkCompletedProcess a (fst r) (fst (snd r)) (snd (snd r))).

Definition run (os : local_os) (popenargs : list pyval) (timeout check : pyval)
    (ssh : option ssh_client) (kwargs : gmap string pyval) : M CompletedProcess :=
  match ssh with
  | None => run_local os popenargs timeout check kwargs
  | Some client => run_remote client popenargs timeout check kwargs
  end.

(** ** [check_output] (lines 65-84) *)

(** Lines 74-77. *)
Definition normalize_input (kwargs : gmap string pyval) : gmap string pyval :=
  match kwargs !! "input" with
  | Some PyNone =>
      <["input" := if truthy (get "universal_newlines" (PyBool false) kwargs)
                   then PyStr [] else PyBytes []]> kwargs
  | _ => kwargs
  end.

(** The keywords line 79 writes out; a [**kwargs] entry under one of these
    names is a [TypeError] of the call. *)
Definition fixed_keywords : list string :=
  ["stdout"; "stderr"; "timeout"; "universal_newlines"; "ssh"]%string.

(** The keyword arguments [run] receives from lines 79-80, before it takes
    [check] out of them. *)
Definition run_keywords (kwargs : gmap string pyval) : gmap string pyval :=
  <["stdout" := PIPE]> (<["stderr" := PIPE]>
    (<["universal_newlines" := PyBool true]> kwargs)).

(** Lines 79-80: [sp.run] is this module's [run] (line 126). *)
Definition call_run (os : local_os) (popenargs : list pyval) (timeout : pyval)
    (ssh : option ssh_client) (kwargs : gmap string pyval) : M CompletedProcess :=
  if existsb (fun k => has_key k kwargs) fixed_keywords then raise TypeError
  else
    run os popenargs timeout (get "check" (PyBool false) kwargs) ssh
      (delete "check" (run_keywords kwargs)).

Definition check_output (os : local_os) (popenargs : list pyval) (timeout : pyval)
    (ssh : option ssh_client) (kwargs : gmap string pyval)
    : M (option (list (list str))) :=
  if has_key "stdout" kwargs then
    raise (ValueError "stdout argument not allowed, it will be overridden.")
  else if has_key "universal_newlines" kwargs then
    raise (ValueError
             "universal_newlines argument not allowed, it will be overridden.")
  else
    let kwargs := normalize_input kwargs in
    r <- call_run os popenargs timeout ssh kwargs ;;
    lift (check_returncode r) ;;;
    lift (decode_output (stdout r)).

(** ** Auxiliary notions used in the statements and proofs *)

(** A greedy repetition of a character class over a maximal run [t] hands
    the rest of the pattern every prefix of [t], the longest first. *)
Fixpoint greedy_tries (k : mstate -> option mstate) (p : nat) (t u : str)
    (g : list (nat * str)) : option mstate :=
  match t with
  | [] => k (MState p u g)
  | c :: t' =>
      match greedy_tries k (S p) t' u g with
      | Some m => Some m
      | None => k (MState p (c :: t' ++ u) g)
      end
  end.

Definition stops (P : N -> bool) (u : str) : Prop :=
  match u with
  | [] => True
  | c :: _ => P c = false
  end.

Definition nonsp (c : N) : bool := negb (existsb (N.eqb c) [SP]).
Definition nonnl (c : N) : bool := negb (c =? NL).

(** A token: one or more characters other than a space. *)
Definition token (t : str) : Prop := t <> [] /\ Forall (fun c => c <> SP) t.

(** A line of text: one or more characters other than a newline. *)
Definition one_line (r : str) : Prop := r <> [] /\ Forall (fun c => c <> NL) r.

(** The end of the subject: nothing, or one final newline. *)
Definition line_end (nl : str) : Prop := nl = [] \/ nl = [NL].

#[global] Instance token_dec t : Decision (token t).
Proof. unfold token. apply _. Defined.

#[global] Instance one_line_dec r : Decision (one_line r).
Proof. unfold one_line. apply _. Defined.

#[global] Instance line_end_dec nl : Decision (line_end nl).
Proof. unfold line_end. apply _. Defined.

Abbreviation tail3 := (Cat (Grp 3 (plus Dot)) Eol) (only parsing).
Abbreviation tail2 :=
  (Cat (Chr SP) (Cat (Grp 2 (plus nonspace)) (lit (str_of ": ") tail3)))
  (only parsing).
Abbreviation more_tokens := (Star false (Cat (Chr SP) (plus nonspace))) (only parsing).

(** The tokens that follow the first one, each with its leading space. *)
Fixpoint spaced (ts : list str) : str :=
  match ts with
  | [] => []
  | t :: ts' => SP :: t ++ spaced ts'
  end.

Fixpoint gids (r : regex) : list nat :=
  match r with
  | Cat r1 r2 => gids r1 ++ gids r2
  | Star _ r' => gids r'
  | Grp n r' => n :: gids r'
  | _ => []
  end.

(** From [st] to [st'] the match moved forward and set groups of [ids] only. *)
Definition frame (ids : list nat) (st st' : mstate) : Prop :=
  (length (rest st') <= length (rest st))%nat
  /\ forall i, ~ In i ids -> assoc i (groups st') = assoc i (groups st).

(** The text [cannot <action> <object>: <reason>], with what ends it. *)
Definition error_message (action : list str) (object reason nl : str) : str :=
  str_of "cannot " ++ join SP action ++ SP :: object ++ str_of ": " ++ reason ++ nl.

(** A character that may stand in a field: no tab and no line boundary. *)
Definition field_char (c : N) : Prop := c <> TAB /\ is_linebreak c = false.

(** A record that the tabular text can carry: it has a field, and its fields
    are made of field characters. *)
Definition record_ok (rec : list str) : Prop :=
  rec <> [] /\ Forall (Forall field_char) rec.

(** Every exception of the run satisfies [Q]. *)
Definition raises_only {A} (Q : exn -> Prop) (m : M A) : Prop :=
  forall e, snd m = Raise e -> Q e.

(** Every value the run returns satisfies [R]. *)
Definition returns_only {A} (R : A -> Prop) (m : M A) : Prop :=
  forall a, snd m = Ok a -> R a.

(** An exception that does not report the exit status of a completed
    command. *)
Definition no_exit_status (e : exn) : Prop :=
  match e with
  | CalledProcessError _ _ _ _ | ZFSError _ _ => False
  | _ => True
  end.

(** What may end a line of the tool's output: a carriage return and line
    feed, or one line boundary other than a lone carriage return. *)
Definition line_terminator (term : str) : Prop :=
  term = [CR; NL]
  \/ exists c, term = [c] /\ is_linebreak c = true /\ c <> CR.

(** Records printed one per line, every line ended by [term]. *)
Definition print_records (term : str) (records : list (list str)) : str :=
  concat (List.map (fun rec => join TAB rec ++ term) records).

(** The calls of the local branch, and those of the remote branch. *)
Definition local_event (ev : event) : bool :=
  match ev with
  | EvPopen _ | EvCommunicate _ _ | EvKill | EvWait | EvPoll | EvExit => true
  | _ => false
  end.

Definition remote_event (ev : event) : bool := negb (local_event ev).

(** The calls of a remote run that nothing interrupts, in order. *)
Definition remote_calls (cmd : pyval) (extra : list pyval) (timeout : pyval)
    (kwargs : gmap string pyval) : list event :=
  [EvExecCommand cmd extra timeout]
  ++ (if truthy (get "stdin" PyNone kwargs)
      then [EvCopyFileObj (get "stdin" PyNone kwargs) 131072] else [])
  ++ [EvStdinClose; EvRecvExitStatus; EvReadlines false; EvReadlines true].

(** * Properties *)

(** ** The matcher on the shapes of text the pattern meets *)

Lemma consumed_eq st st' t :
  rest st = t ++ rest st' -> consumed st st' = t.
Proof.
  intros H. unfold consumed. rewrite H, length_app.
  replace (length t + length (rest st') - length (rest st'))%nat
    with (length t) by lia.
  apply take_app_length.
Qed.

Lemma rmatch_lit t r k p u g :
  rmatch (lit t r) k (MState p (t ++ u) g)
  = rmatch r k (MState (length t + p) u g).
Proof.
  revert p. induction t as [|c t IH]; intros p; [reflexivity|].
  simpl. unfold step1; simpl. rewrite N.eqb_refl, IH.
  by rewrite Nat.add_succ_r.
Qed.

Lemma rmatch_lit_inv t r k p s g m :
  rmatch (lit t r) k (MState p s g) = Some m ->
  exists u, s = t ++ u /\ rmatch r k (MState (length t + p) u g) = Some m.
Proof.
  revert p s. induction t as [|c t IH]; intros p s H.
  - exists s. by split.
  - simpl in H. unfold step1 in H; simpl in H.
    destruct s as [|d s]; [done|].
    destruct (N.eqb_spec c d) as [->|]; [|done].
    apply IH in H as (u & -> & H). exists u. split; [done|].
    simpl. by rewrite <- Nat.add_succ_r.
Qed.

Lemma star_greedy_class body P k n p t u g :
  (forall k' st, body k' st = step1 P k' st) ->
  Forall (fun c => P c = true) t -> stops P u -> (length t <= n)%nat ->
  star_loop true body k n (MState p (t ++ u) g) = greedy_tries k p t u g.
Proof.
  intros Hb Ht Hu. revert n p.
  induction Ht as [|c t Hc Ht IH]; intros n p Hn.
  - destruct n as [|n]; [reflexivity|].
    simpl. rewrite Hb. unfold step1; simpl.
    destruct u as [|d u]; [reflexivity|]. simpl in Hu. by rewrite Hu.
  - destruct n as [|n]; [simpl in Hn; lia|].
    simpl. rewrite Hb. unfold step1; simpl. rewrite Hc.
    rewrite IH by (simpl in Hn; lia). reflexivity.
Qed.

Lemma plus_class r P k p c t u g :
  (forall k' st, rmatch r k' st = step1 P k' st) ->
  P c = true -> Forall (fun c => P c = true) t -> stops P u ->
  rmatch (plus r) k (MState p (c :: t ++ u) g) = greedy_tries k (S p) t u g.
Proof.
  intros Hr Hc Ht Hu. unfold plus. simpl. rewrite Hr.
  unfold step1; simpl. rewrite Hc.
  apply (star_greedy_class _ P); auto. rewrite length_app. lia.
Qed.

Lemma greedy_tries_first k p t u g m :
  k (MState (length t + p) u g) = Some m -> greedy_tries k p t u g = Some m.
Proof.
  revert p. induction t as [|c t IH]; intros p H; [exact H|].
  simpl. rewrite IH; [done|]. by rewrite Nat.add_succ_r.
Qed.

Lemma greedy_tries_snoc k p t c u g :
  k (MState (length (t ++ [c]) + p) u g) = None ->
  greedy_tries k p (t ++ [c]) u g = greedy_tries k p t (c :: u) g.
Proof.
  revert p. induction t as [|d t IH]; intros p H.
  - simpl in *. by rewrite H.
  - simpl. rewrite IH.
    + by rewrite <- app_assoc.
    + simpl in H. by rewrite Nat.add_succ_r.
Qed.

Lemma greedy_tries_none k p t u g :
  (forall t1 t2, t = t1 ++ t2 ->
     k (MState (length t1 + p) (t2 ++ u) g) = None) ->
  greedy_tries k p t u g = None.
Proof.
  revert p. induction t as [|c t IH]; intros p H.
  - simpl. apply (H [] []). reflexivity.
  - simpl. rewrite IH.
    + apply (H [] (c :: t)). reflexivity.
    + intros t1 t2 ->. specialize (H (c :: t1) t2 eq_refl).
      simpl in H. by rewrite Nat.add_succ_r.
Qed.

Lemma rmatch_nonspace k st : rmatch nonspace k st = step1 nonsp k st.
Proof. reflexivity. Qed.

Lemma rmatch_dot k st : rmatch Dot k st = step1 nonnl k st.
Proof. reflexivity. Qed.

Lemma nonsp_true c : c <> SP -> nonsp c = true.
Proof. intros H. unfold nonsp; simpl. by destruct (N.eqb_spec c SP). Qed.

Lemma nonsp_Forall t :
  Forall (fun c => c <> SP) t -> Forall (fun c => nonsp c = true) t.
Proof. intros H. eapply Forall_impl; [exact H|]. intros c. apply nonsp_true. Qed.

Lemma nonnl_Forall t :
  Forall (fun c => c <> NL) t -> Forall (fun c => nonnl c = true) t.
Proof.
  intros H. eapply Forall_impl; [exact H|].
  intros c Hc. unfold nonnl. by destruct (N.eqb_spec c NL).
Qed.

Lemma reason_tail r nl p g :
  one_line r -> line_end nl ->
  rmatch tail3 Some (MState p (r ++ nl) g)
  = Some (MState (length r + p) nl ((3%nat, r) :: g)).
Proof.
  intros [Hne Hr] Hnl. destruct r as [|c r]; [done|].
  apply Forall_cons in Hr as [Hc Hr].
  cbn [rmatch]. rewrite <- app_comm_cons.
  rewrite (plus_class Dot nonnl); [|apply rmatch_dot| |by apply nonnl_Forall|].
  - apply greedy_tries_first. rewrite (consumed_eq _ _ (c :: r)) by reflexivity.
    unfold set_group; simpl.
    replace (at_eol nl) with true by (by destruct Hnl as [->| ->]).
    by rewrite Nat.add_succ_r.
  - unfold nonnl. by destruct (N.eqb_spec c NL).
  - by destruct Hnl as [->| ->].
Qed.

Lemma object_tail o r nl p g :
  token o -> one_line r -> line_end nl ->
  exists p',
    rmatch tail2 Some (MState p (SP :: o ++ COLON :: SP :: r ++ nl) g)
    = Some (MState p' nl ((3%nat, r) :: (2%nat, o) :: g)).
Proof.
  intros [Hne Ho] Hr Hnl. destruct o as [|c o]; [done|].
  apply Forall_cons in Ho as [Hc Ho].
  eexists. cbn [rmatch]. unfold step1 at 1. cbn [rest pos groups].
  rewrite N.eqb_refl.
  change ((c :: o) ++ COLON :: SP :: r ++ nl)
    with (c :: (o ++ COLON :: SP :: r ++ nl)).
  replace (o ++ COLON :: SP :: r ++ nl)
    with ((o ++ [COLON]) ++ SP :: r ++ nl) by (by rewrite <- app_assoc).
  rewrite (plus_class nonspace nonsp);
    [|apply rmatch_nonspace|by apply nonsp_true| |reflexivity].
  - rewrite greedy_tries_snoc by reflexivity.
    apply greedy_tries_first.
    rewrite <- app_assoc. simpl app.
    rewrite (consumed_eq _ _ (c :: o)) by reflexivity.
    unfold set_group. cbn [pos rest groups].
    rewrite (rmatch_lit (str_of ": ") _ _ _ (r ++ nl)).
    rewrite reason_tail by done. reflexivity.
  - apply Forall_app. split; [by apply nonsp_Forall|].
    by repeat constructor.
Qed.

Lemma rmatch_Cat r1 r2 k st :
  rmatch (Cat r1 r2) k st = rmatch r1 (rmatch r2 k) st.
Proof. reflexivity. Qed.

Lemma rmatch_Grp n r k st :
  rmatch (Grp n r) k st
  = rmatch r (fun st' => k (set_group n (consumed st st') st')) st.
Proof. reflexivity. Qed.

Lemma rmatch_Chr c k p s g :
  rmatch (Chr c) k (MState p (c :: s) g) = k (MState (S p) s g).
Proof. simpl. unfold step1; simpl. by rewrite N.eqb_refl. Qed.

Lemma step1_cons P k p c s g :
  step1 P k (MState p (c :: s) g)
  = if P c then k (MState (S p) s g) else None.
Proof. reflexivity. Qed.

Lemma colon_space : str_of ": " = [COLON; SP].
Proof. reflexivity. Qed.

(** A token that does not end in a colon cannot be taken for the object. *)
Lemma object_fail t w p g :
  token t -> last t <> Some COLON ->
  rmatch tail2 Some (MState p (SP :: t ++ SP :: w) g) = None.
Proof.
  intros [Hne Ht] Hlast. destruct t as [|c t]; [done|].
  apply Forall_cons in Ht as [Hc Ht].
  rewrite rmatch_Cat, rmatch_Chr, rmatch_Cat, rmatch_Grp.
  change ((c :: t) ++ SP :: w) with (c :: t ++ SP :: w).
  rewrite (plus_class nonspace nonsp);
    [|apply rmatch_nonspace|by apply nonsp_true|by apply nonsp_Forall|reflexivity].
  apply greedy_tries_none. intros t1 t2 ->.
  rewrite colon_space. unfold set_group. cbn [pos rest groups lit fold_right].
  rewrite rmatch_Cat. cbn [rmatch].
  destruct t2 as [|x t2]; simpl app; rewrite step1_cons; [reflexivity|].
  destruct (COLON =? x) eqn:Ex; [|reflexivity].
  apply N.eqb_eq in Ex as <-.
  destruct t2 as [|y t2]; simpl app; rewrite step1_cons.
  - exfalso. apply Hlast. rewrite app_comm_cons. apply last_snoc.
  - apply Forall_app in Ht as [_ Ht].
    apply Forall_cons in Ht as [_ Ht]. apply Forall_cons in Ht as [Hy _].
    destruct (SP =? y) eqn:Ey; [|reflexivity].
    by apply N.eqb_eq in Ey as <-.
Qed.

Lemma join_spaced a ts : join SP (a :: ts) = a ++ spaced ts.
Proof.
  revert a. induction ts as [|t ts IH]; intros a.
  - simpl. by rewrite app_nil_r.
  - change (join SP (a :: t :: ts)) with (a ++ SP :: join SP (t :: ts)).
    by rewrite IH.
Qed.

Lemma spaced_cons_app t ts x :
  spaced (t :: ts) ++ x = SP :: t ++ spaced ts ++ x.
Proof. simpl. by rewrite <- app_assoc. Qed.

Lemma spaced_head ts x : exists w, spaced ts ++ SP :: x = SP :: w.
Proof. destruct ts as [|t ts]; simpl; eauto. Qed.

Lemma spaced_length ts : (length ts <= length (spaced ts))%nat.
Proof.
  induction ts as [|t ts IH]; simpl; [lia|]. rewrite length_app. lia.
Qed.

Section MoreTokens.
Variables (o r nl : str) (K : mstate -> option mstate).
Hypothesis K_object : forall p g,
  exists m, K (MState p (SP :: o ++ COLON :: SP :: r ++ nl) g) = Some m
            /\ group m 2 = Some o /\ group m 3 = Some r.
Hypothesis K_other : forall t w p g,
  token t -> last t <> Some COLON ->
  K (MState p (SP :: t ++ SP :: w) g) = None.

(** The lazy repetition skips every token that cannot be the object. *)
Lemma more_tokens_loop ts : forall n p g,
  Forall token ts -> Forall (fun t => last t <> Some COLON) ts ->
  (length ts <= n)%nat ->
  exists m,
    star_loop false (rmatch (Cat (Chr SP) (plus nonspace))) K n
      (MState p (spaced ts ++ SP :: o ++ COLON :: SP :: r ++ nl) g) = Some m
    /\ group m 2 = Some o /\ group m 3 = Some r.
Proof.
  induction ts as [|t ts IH]; intros n p g Htok Hcol Hn.
  - simpl app. destruct (K_object p g) as (m & Hm & H2 & H3).
    exists m. split; [|done]. destruct n; simpl; by rewrite Hm.
  - destruct n as [|n]; [simpl in Hn; lia|].
    apply Forall_cons in Htok as [Ht Htok].
    apply Forall_cons in Hcol as [Hc Hcol].
    destruct (spaced_head ts (o ++ COLON :: SP :: r ++ nl)) as [w Hw].
    pose proof Ht as [Hne Hsp]. destruct t as [|c t]; [done|].
    apply Forall_cons in Hsp as [Hc1 Hsp].
    destruct (IH n (length t + S (S p))%nat g Htok Hcol) as (m & Hm & H2 & H3);
      [simpl in Hn; lia|].
    exists m. split; [|done].
    rewrite spaced_cons_app. cbn [star_loop]. rewrite Hw. rewrite (K_other _ w p g Ht Hc).
    rewrite rmatch_Cat, rmatch_Chr.
    rewrite <- app_comm_cons.
    rewrite (plus_class nonspace nonsp);
      [|apply rmatch_nonspace|by apply nonsp_true|by apply nonsp_Forall
       |reflexivity].
    apply greedy_tries_first. rewrite <- Hw. exact Hm.
Qed.
End MoreTokens.

Lemma search_from_hit r p s m :
  rmatch r Some (MState p s []) = Some m -> search_from r p s = Some m.
Proof. intros H. destruct s; simpl; by rewrite H. Qed.

(** The match the engine finds on a well-formed message: the object is the
    first token after the action that ends in a colon. *)
Lemma pattern_matches a ts o r nl :
  token a -> Forall token ts -> Forall (fun t => last t <> Some COLON) ts ->
  token o -> one_line r -> line_end nl ->
  exists m,
    re_search pattern
      (str_of "cannot " ++ a ++ spaced ts ++ SP :: o ++ COLON :: SP :: r ++ nl)
    = Some m
    /\ group m 2 = Some o /\ group m 3 = Some r.
Proof.
  intros [Hne Ha] Hts Hcol Ho Hr Hnl.
  destruct a as [|c a]; [done|]. apply Forall_cons in Ha as [Hc Ha].
  destruct (spaced_head ts (o ++ COLON :: SP :: r ++ nl)) as [w Hw].
  set (st0 := MState (length (str_of "cannot ") + 0)
                ((c :: a) ++ spaced ts ++ SP :: o ++ COLON :: SP :: r ++ nl) []).
  set (K := fun st' => rmatch tail2 Some (set_group 1 (consumed st0 st') st')).
  destruct (more_tokens_loop o r nl K) with (ts := ts)
    (n := length (spaced ts ++ SP :: o ++ COLON :: SP :: r ++ nl))
    (p := (length a + S (pos st0))%nat)
    (g := @nil (nat * list N)) as (m & Hm & H2 & H3); try done.
  - intros p g. unfold K, set_group. cbn [pos rest groups].
    destruct (object_tail o r nl p ((1%nat, consumed st0
      (MState p (SP :: o ++ COLON :: SP :: r ++ nl) g)) :: g)) as [p' Hp'];
      try done.
    eexists. split; [exact Hp'|]. by split.
  - intros t w' p g Ht Hl. unfold K, set_group. cbn [pos rest groups].
    by apply object_fail.
  - rewrite length_app. pose proof (spaced_length ts). lia.
  - exists m. split; [|done]. apply search_from_hit.
    unfold pattern. rewrite rmatch_Cat. cbn [rmatch pos]. cbn [Nat.eqb].
    rewrite rmatch_lit. fold st0.
    rewrite rmatch_Cat, rmatch_Grp. fold K. rewrite rmatch_Cat.
    unfold st0. rewrite <- app_comm_cons, Hw.
    rewrite (plus_class nonspace nonsp);
      [|apply rmatch_nonspace|by apply nonsp_true|by apply nonsp_Forall
       |reflexivity].
    apply greedy_tries_first. rewrite <- Hw. exact Hm.
Qed.

(** ** What every successful match satisfies *)

Lemma frame_refl ids st : frame ids st st.
Proof. by split. Qed.

Lemma frame_trans ids1 ids2 ids st1 st2 st3 :
  (forall i, In i ids1 -> In i ids) -> (forall i, In i ids2 -> In i ids) ->
  frame ids1 st1 st2 -> frame ids2 st2 st3 -> frame ids st1 st3.
Proof.
  intros H1 H2 [L1 G1] [L2 G2]. split; [lia|].
  intros i Hi. rewrite G2, G1; auto.
Qed.

Lemma step1_inv P k st m :
  step1 P k st = Some m ->
  exists c s, rest st = c :: s /\ P c = true
              /\ k (MState (S (pos st)) s (groups st)) = Some m.
Proof.
  unfold step1. destruct (rest st) as [|c s]; [done|].
  destruct (P c) eqn:E; [|done]. intros H. by exists c, s.
Qed.

Lemma step1_sound P k st m :
  step1 P k st = Some m -> exists st', k st' = Some m /\ frame [] st st'.
Proof.
  intros H. apply step1_inv in H as (c & s & Hr & _ & H).
  eexists. split; [exact H|]. split; simpl; [rewrite Hr; simpl; lia|done].
Qed.

Lemma star_loop_sound g body k ids :
  (forall k' st m, body k' st = Some m ->
     exists st', k' st' = Some m /\ frame ids st st') ->
  forall n st m, star_loop g body k n st = Some m ->
    exists st', k st' = Some m /\ frame ids st st'.
Proof.
  intros Hb. induction n as [|n IH]; intros st m H.
  - exists st. split; [exact H|apply frame_refl].
  - simpl in H.
    assert (Hbody : body (star_loop g body k n) st = Some m ->
              exists st', k st' = Some m /\ frame ids st st').
    { intros Hm. apply Hb in Hm as (st1 & Hm & F1).
      apply IH in Hm as (st2 & Hm & F2).
      exists st2. split; [exact Hm|]. by apply (frame_trans ids ids ids st st1). }
    destruct g.
    + destruct (body (star_loop true body k n) st) as [m'|] eqn:E.
      * injection H as ->. by apply Hbody.
      * exists st. split; [exact H|apply frame_refl].
    + destruct (k st) as [m'|] eqn:E.
      * injection H as ->. exists st. split; [exact E|apply frame_refl].
      * by apply Hbody.
Qed.

Lemma rmatch_sound r : forall k st m,
  rmatch r k st = Some m ->
  exists st', k st' = Some m /\ frame (gids r) st st'.
Proof.
  induction r as [| |c| |cs|r1 IH1 r2 IH2|g r IH|n r IH]; intros k st m H;
    simpl in H.
  - destruct (Nat.eqb (pos st) 0); [|done].
    exists st. split; [exact H|apply frame_refl].
  - destruct (at_eol (rest st)); [|done].
    exists st. split; [exact H|apply frame_refl].
  - by apply step1_sound in H.
  - by apply step1_sound in H.
  - by apply step1_sound in H.
  - apply IH1 in H as (st1 & H & F1). apply IH2 in H as (st2 & H & F2).
    exists st2. split; [exact H|].
    apply (frame_trans (gids r1) (gids r2) _ st st1); auto;
      intros i Hi; simpl; apply in_or_app; auto.
  - by apply (star_loop_sound g (rmatch r) k (gids r) IH) in H.
  - apply IH in H as (st1 & H & [L G]).
    eexists. split; [exact H|]. split; [exact L|].
    intros i Hi. simpl in Hi. unfold set_group; simpl.
    destruct (Nat.eqb_spec n i) as [->|]; [tauto|]. apply G. tauto.
Qed.

(** A repetition of at least one character consumes at least one. *)
Lemma plus_class_sound r P k st m :
  (forall k' st', rmatch r k' st' = step1 P k' st') -> gids r = [] ->
  rmatch (plus r) k st = Some m ->
  exists st', k st' = Some m /\ frame [] st st'
              /\ (length (rest st') < length (rest st))%nat.
Proof.
  intros Hr Hg H. unfold plus in H. rewrite rmatch_Cat, Hr in H.
  apply step1_inv in H as (c & s & Hs & _ & H).
  apply rmatch_sound in H as (st' & H & [L G]). simpl in L, G.
  rewrite Hg in G.
  exists st'. split; [exact H|].
  split; [split|]; [rewrite Hs; simpl; lia|exact G|rewrite Hs; simpl; lia].
Qed.

Lemma consumed_nonempty st st' :
  (length (rest st') < length (rest st))%nat -> consumed st st' <> [].
Proof.
  unfold consumed. intros H. destruct (rest st) as [|c s]; simpl in *; [lia|].
  destruct (S (length s) - length (rest st'))%nat eqn:E; [lia|]. done.
Qed.

Lemma search_from_later p s : search_from pattern (S p) s = None.
Proof. revert p. induction s as [|c s IH]; intros p; simpl; auto. Qed.

Lemma re_search_start s m :
  re_search pattern s = Some m ->
  rmatch pattern Some (MState 0 s []) = Some m.
Proof.
  unfold re_search. intros H.
  destruct (rmatch pattern Some (MState 0 s [])) as [m'|] eqn:E.
  - by rewrite (search_from_hit _ _ _ _ E) in H.
  - destruct s; cbn [search_from] in H; rewrite E in H; [done|].
    by rewrite search_from_later in H.
Qed.

(** The pattern is anchored: a match starts with the literal [cannot ]. *)
Lemma re_search_prefix s m :
  re_search pattern s = Some m -> exists u, s = str_of "cannot " ++ u.
Proof.
  intros H. apply re_search_start in H. unfold pattern in H.
  rewrite rmatch_Cat in H. cbn [rmatch pos Nat.eqb] in H.
  apply rmatch_lit_inv in H as (u & -> & _). by exists u.
Qed.

(** Groups 2 and 3 take part in every match, and group 2 is not empty. *)
Lemma re_search_groups s m :
  re_search pattern s = Some m ->
  exists d r, group m 2 = Some d /\ group m 3 = Some r /\ d <> [].
Proof.
  intros H. apply re_search_start in H. unfold pattern in H.
  rewrite rmatch_Cat in H. cbn [rmatch pos Nat.eqb] in H.
  apply rmatch_lit_inv in H as (u & _ & H).
  rewrite rmatch_Cat in H. apply rmatch_sound in H as (st2 & H & _).
  rewrite rmatch_Cat in H. apply rmatch_sound in H as (st3 & H & _).
  rewrite rmatch_Cat, rmatch_Grp in H.
  apply (plus_class_sound nonspace nonsp) in H as (st4 & H & _ & L4);
    [|apply rmatch_nonspace|reflexivity].
  apply rmatch_lit_inv in H as (u' & _ & H).
  rewrite rmatch_Cat, rmatch_Grp in H.
  apply (plus_class_sound Dot nonnl) in H as (st6 & H & [_ G6] & _);
    [|apply rmatch_dot|reflexivity].
  cbn [rmatch] in H. destruct (at_eol _); [|done]. injection H as <-.
  eexists _, _. split; [|split; [reflexivity|]].
  - unfold group, set_group. cbn [groups assoc Nat.eqb].
    rewrite G6 by (intros []). cbn [groups assoc Nat.eqb]. reflexivity.
  - by apply consumed_nonempty.
Qed.

(** ** [check_returncode] *)

Lemma error_message_spaced a ts o r nl :
  error_message (a :: ts) o r nl
  = str_of "cannot " ++ a ++ spaced ts ++ SP :: o ++ COLON :: SP :: r ++ nl.
Proof.
  unfold error_message. rewrite join_spaced, colon_space.
  by rewrite <- app_assoc.
Qed.

Lemma strerror_one_line e : one_line (strerror e).
Proof.
  destruct e; (split; [done|]); apply Forall_forall; intros c Hc Heq; subst c;
    revert Hc; apply (bool_decide_unpack _); vm_compute; exact I.
Qed.

Lemma find_strerror e :
  List.find (fun error => str_eqb (strerror e) (strerror error)) known_errors
  = Some e.
Proof. by destruct e; vm_compute. Qed.

Lemma find_unknown reason :
  (forall e, reason <> strerror e) ->
  List.find (fun error => str_eqb reason (strerror error)) known_errors = None.
Proof.
  intros H. unfold known_errors, str_eqb. cbn [List.find].
  by rewrite (bool_decide_eq_false_2 _ (H DatasetNotFoundError)),
    (bool_decide_eq_false_2 _ (H DatasetExistsError)),
    (bool_decide_eq_false_2 _ (H DatasetBusyError)),
    (bool_decide_eq_false_2 _ (H HoldTagNotFoundError)),
    (bool_decide_eq_false_2 _ (H HoldTagExistsError)).
Qed.

Lemma unquote_nonempty d : d <> [] -> exists d', unquote d = Ok d'.
Proof.
  intros H. unfold unquote.
  destruct d as [|c d]; [done|]. change (head (c :: d)) with (Some c).
  destruct (last (c :: d)) as [b|] eqn:E.
  - destruct ((c =? b) && (b =? QUOTE)); eauto.
  - by apply last_None in E.
Qed.

Lemma unquote_token o : token o -> exists d, unquote o = Ok d.
Proof. intros [H _]. by apply unquote_nonempty. Qed.

(** On a well-formed message the typed error is raised. *)
Lemma check_returncode_message a ts o e nl cmd out d :
  token a -> Forall token ts -> Forall (fun t => last t <> Some COLON) ts ->
  token o -> line_end nl -> unquote o = Ok d ->
  check_returncode
    (mkCompletedProcess cmd 1 out
       (PyStr (error_message (a :: ts) o (strerror e) nl)))
  = Raise (ZFSError e d).
Proof.
  intros Ha Hts Hcol Ho Hnl Hd.
  destruct (pattern_matches a ts o (strerror e) nl) as (m & Hm & H2 & H3);
    auto using strerror_one_line.
  unfold check_returncode. cbn [returncode stderr]. simpl Z.eqb. cbv iota.
  rewrite error_message_spaced, Hm, H2, H3, Hd, find_strerror. reflexivity.
Qed.

(** Without a match, or with a reason that is not in the table, the
    superclass decides. *)
Lemma check_returncode_unmatched self text :
  stderr self = PyStr text ->
  re_search pattern text = None
  \/ (exists m reason, re_search pattern text = Some m
        /\ group m 3 = Some reason /\ forall e, reason <> strerror e) ->
  check_returncode self = super_check_returncode self.
Proof.
  intros Herr H. unfold check_returncode.
  destruct (returncode self =? 1)%Z; [|reflexivity]. rewrite Herr.
  destruct H as [->|(m & reason & Hm & H3 & Hr)]; [reflexivity|].
  rewrite Hm. destruct (re_search_groups _ _ Hm) as (d & r & H2 & H3' & Hd).
  rewrite H2, H3. destruct (unquote_nonempty d Hd) as [d' ->].
  by rewrite find_unknown.
Qed.

(** Every exception of [check_returncode] on an error text is a typed error
    or the generic one. *)
Lemma check_returncode_cases self text :
  stderr self = PyStr text ->
  check_returncode self = super_check_returncode self
  \/ exists e d, check_returncode self = Raise (ZFSError e d)
                 /\ returncode self = 1%Z
                 /\ exists u, text = str_of "cannot " ++ u.
Proof.
  intros Herr. unfold check_returncode.
  destruct (returncode self =? 1)%Z eqn:Hrc; [|by left]. rewrite Herr.
  apply Z.eqb_eq in Hrc.
  destruct (re_search pattern text) as [m|] eqn:Hm; [|by left].
  destruct (re_search_groups _ _ Hm) as (d & r & -> & -> & Hd).
  destruct (unquote_nonempty d Hd) as [d' ->].
  destruct (List.find _ known_errors) as [e|]; [|by left].
  right. exists e, d'. repeat split; auto. by apply re_search_prefix in Hm.
Qed.

Lemma unquote_quoted mid : unquote (QUOTE :: mid ++ [QUOTE]) = Ok mid.
Proof.
  unfold unquote. change (head (QUOTE :: mid ++ [QUOTE])) with (Some QUOTE).
  rewrite app_comm_cons, last_snoc. simpl "&&". cbv iota.
  unfold slice. simpl. rewrite length_app. simpl.
  replace (length mid + 1 - 0 - 1)%nat with (length mid) by lia.
  by rewrite drop_0, take_app_length.
Qed.

Lemma unquote_ends d :
  head d = Some QUOTE -> last d = Some QUOTE ->
  unquote d = Ok (slice 1 (length d - 1) d).
Proof. intros Hh Hl. unfold unquote. by rewrite Hh, Hl. Qed.

Lemma unquote_unquoted d :
  d <> [] -> head d <> Some QUOTE \/ last d <> Some QUOTE -> unquote d = Ok d.
Proof.
  intros Hne H. unfold unquote.
  destruct (head d) as [a|] eqn:Hh; [|by destruct d].
  destruct (last d) as [b|] eqn:Hl; [|by apply last_None in Hl].
  destruct (N.eqb_spec a b) as [->|]; [|reflexivity].
  destruct (N.eqb_spec b QUOTE) as [->|]; [|reflexivity].
  by destruct H.
Qed.

(** Shapes of concrete texts are decided by evaluation. *)
Ltac shape := by (apply (bool_decide_unpack _); vm_compute).

(** ** The claims about the classifier *)

(** C3, as stated, fails: in [cannot x y: z: dataset is busy] the reason
    after the final colon is a known one and the token before that colon is
    [z], yet the pattern takes [y] for the object and the rest of the line
    for the reason, and no typed error is raised.  A dataset name that
    contains a colon and a space has the same effect. *)
Lemma classify_later_colon_counterexample :
  let cmd := PyList [PyStr (str_of "zfs")] in
  let text :=
    error_message [str_of "x"; str_of "y:"] (str_of "z")
      (strerror DatasetBusyError) [] in
  let text' :=
    error_message [str_of "open"; str_of "'tank/my:"] (str_of "data'")
      (strerror DatasetNotFoundError) [NL] in
  text = str_of "cannot x y: z: dataset is busy"
  /\ Forall token [str_of "x"; str_of "y:"] /\ token (str_of "z")
  /\ check_returncode (mkCompletedProcess cmd 1 (PyStr []) (PyStr text))
     = Raise (CalledProcessError 1 cmd (PyStr []) (PyStr text))
  /\ check_returncode (mkCompletedProcess cmd 1 (PyStr []) (PyStr text))
     <> Raise (ZFSError DatasetBusyError (str_of "z"))
  /\ text' = str_of "cannot open 'tank/my: data': dataset does not exist" ++ [NL]
  /\ check_returncode (mkCompletedProcess cmd 1 (PyStr []) (PyStr text'))
     = Raise (CalledProcessError 1 cmd (PyStr []) (PyStr text')).
Proof.
  cbv zeta. split; [reflexivity|]. split; [shape|].
  split; [shape|]. split; [by vm_compute|]. split; [by vm_compute|].
  split; [reflexivity|]. by vm_compute.
Qed.

(** C3, amended: with exit code 1, on every text
    [cannot <action> <object>: <reason>] (ended by nothing or by one newline)
    whose action tokens after the first do not end in a colon and whose
    reason is one of the five known strings, [check_returncode] raises the
    corresponding typed error carrying the object with one pair of
    surrounding single quotes stripped (an object not quoted at both ends is
    carried as it is); [cannot destroy 'tank/data': dataset is busy] raises
    the busy error for [tank/data]; and when the pattern does not match or
    the reason is not a known one, the generic failure is raised instead. *)
Theorem classify_first_colon_token :
  (forall a ts o e nl cmd out,
     token a -> Forall token ts ->
     Forall (fun t => last t <> Some COLON) ts ->
     token o -> line_end nl ->
     exists d,
       unquote o = Ok d
       /\ check_returncode
            (mkCompletedProcess cmd 1 out
               (PyStr (error_message (a :: ts) o (strerror e) nl)))
          = Raise (ZFSError e d))
  /\ (forall mid, unquote (QUOTE :: mid ++ [QUOTE]) = Ok mid)
  /\ (forall o, o <> [] -> head o <> Some QUOTE \/ last o <> Some QUOTE ->
        unquote o = Ok o)
  /\ (forall cmd out,
        check_returncode
          (mkCompletedProcess cmd 1 out
             (PyStr (str_of "cannot destroy 'tank/data': dataset is busy")))
        = Raise (ZFSError DatasetBusyError (str_of "tank/data")))
  /\ (forall self text,
        returncode self = 1%Z -> stderr self = PyStr text ->
        re_search pattern text = None
        \/ (exists m reason, re_search pattern text = Some m
              /\ group m 3 = Some reason /\ forall e, reason <> strerror e) ->
        check_returncode self
        = Raise (CalledProcessError 1 (args self) (stdout self) (stderr self))).
Proof.
  split; [|split; [|split; [|split]]].
  - intros a ts o e nl cmd out Ha Hts Hcol Ho Hnl.
    destruct (unquote_token o Ho) as [d Hd]. exists d. split; [exact Hd|].
    by apply check_returncode_message.
  - apply unquote_quoted.
  - apply unquote_unquoted.
  - intros cmd out.
    apply (check_returncode_message (str_of "destroy") [] (str_of "'tank/data'")
             DatasetBusyError []); first [shape|by vm_compute].
  - intros self text Hrc Herr H.
    rewrite (check_returncode_unmatched self text Herr H).
    unfold super_check_returncode. by rewrite Hrc.
Qed.

Lemma classify_first_colon_token_witness :
  check_returncode
    (mkCompletedProcess (PyList [PyStr (str_of "zfs")]) 1 (PyStr [])
       (PyStr (str_of "cannot open tank/missing: dataset does not exist" ++ [NL])))
  = Raise (ZFSError DatasetNotFoundError (str_of "tank/missing"))
  /\ check_returncode
       (mkCompletedProcess (PyList [PyStr (str_of "zfs")]) 1 (PyStr [])
          (PyStr (str_of "cannot frobnicate tank: no such dataset")))
     = Raise (CalledProcessError 1 (PyList [PyStr (str_of "zfs")]) (PyStr [])
                (PyStr (str_of "cannot frobnicate tank: no such dataset"))).
Proof.
  destruct classify_first_colon_token as (H1 & _ & _ & _ & H5). split.
  - destruct (H1 (str_of "open") [] (str_of "tank/missing")
                DatasetNotFoundError [NL] (PyList [PyStr (str_of "zfs")])
                (PyStr [])) as (d & Hd & H); try shape.
    vm_compute in Hd. injection Hd as <-. exact H.
  - apply (H5 (mkCompletedProcess (PyList [PyStr (str_of "zfs")]) 1 (PyStr [])
                 (PyStr (str_of "cannot frobnicate tank: no such dataset")))
              (str_of "cannot frobnicate tank: no such dataset"));
      [reflexivity|reflexivity|].
    right. eexists _, _. split; [by vm_compute|]. split; [reflexivity|].
    intros e. by destruct e; vm_compute.
Defined.

(** C5: when the exit code is not 1, [check_returncode] is the superclass
    method (the generic handling of a non-zero exit) and never raises a typed
    error, whatever the error text. *)
Theorem classify_exit_code_not_one self :
  returncode self <> 1%Z ->
  check_returncode self = super_check_returncode self
  /\ forall e d, check_returncode self <> Raise (ZFSError e d).
Proof.
  intros Hrc. assert (H : check_returncode self = super_check_returncode self).
  { unfold check_returncode. by destruct (Z.eqb_spec (returncode self) 1). }
  split; [exact H|]. intros e d. rewrite H. unfold super_check_returncode.
  by destruct (returncode self =? 0)%Z.
Qed.

Lemma classify_exit_code_not_one_witness :
  let self :=
    mkCompletedProcess (PyList [PyStr (str_of "zfs")]) 2 (PyStr [])
      (PyStr (str_of "cannot destroy 'tank/data': dataset is busy")) in
  check_returncode self
  = Raise (CalledProcessError 2 (args self) (stdout self) (stderr self)).
Proof.
  cbv zeta.
  refine (eq_trans (proj1 (classify_exit_code_not_one _ _)) _);
    [by vm_compute|reflexivity].
Defined.

(** C9: an object token that is the single character ['] passes the test on
    its first and last character and is stripped to the empty string, which
    the typed error then carries; and every token whose first and last
    characters are both ['] is stripped of them. *)
Theorem unquote_lone_quote :
  unquote [QUOTE] = Ok []
  /\ (forall o, (1 <= length o)%nat ->
        head o = Some QUOTE -> last o = Some QUOTE ->
        unquote o = Ok (slice 1 (length o - 1) o))
  /\ (forall mid, slice 1 (length (QUOTE :: mid ++ [QUOTE]) - 1)
                    (QUOTE :: mid ++ [QUOTE]) = mid)
  /\ (forall a ts e nl cmd out,
        token a -> Forall token ts ->
        Forall (fun t => last t <> Some COLON) ts -> line_end nl ->
        check_returncode
          (mkCompletedProcess cmd 1 out
             (PyStr (error_message (a :: ts) [QUOTE] (strerror e) nl)))
        = Raise (ZFSError e [])).
Proof.
  split; [reflexivity|]. split; [|split].
  - intros o _. apply unquote_ends.
  - intros mid. pose proof (unquote_quoted mid) as H.
    rewrite unquote_ends in H; [by injection H| reflexivity|].
    by rewrite app_comm_cons, last_snoc.
  - intros a ts e nl cmd out Ha Hts Hcol Hnl.
    apply check_returncode_message; auto; first [shape|reflexivity].
Qed.

Lemma unquote_lone_quote_witness :
  unquote (str_of "'tank/data'") = Ok (str_of "tank/data")
  /\ check_returncode
       (mkCompletedProcess (PyList [PyStr (str_of "zfs")]) 1 (PyStr [])
          (PyStr (str_of "cannot open ': dataset does not exist")))
     = Raise (ZFSError DatasetNotFoundError []).
Proof.
  destruct unquote_lone_quote as (_ & H2 & _ & H4). split.
  - refine (eq_trans (H2 (str_of "'tank/data'") _ _ _) _);
      [vm_compute; lia|reflexivity|reflexivity|reflexivity].
  - apply (H4 (str_of "open") [] DatasetNotFoundError []); shape.
Defined.

(** ** The decoder *)

Lemma split_app sep f s :
  Forall (fun c => c <> sep) f ->
  split sep (f ++ sep :: s) = f :: split sep s.
Proof.
  induction 1 as [|c f Hc Hf IH]; simpl.
  - by rewrite N.eqb_refl.
  - rewrite IH. by destruct (N.eqb_spec c sep).
Qed.

Lemma split_no_sep sep f : Forall (fun c => c <> sep) f -> split sep f = [f].
Proof.
  induction 1 as [|c f Hc Hf IH]; simpl; [done|].
  rewrite IH. by destruct (N.eqb_spec c sep).
Qed.

Lemma split_join sep fields :
  fields <> [] -> Forall (Forall (fun c => c <> sep)) fields ->
  split sep (join sep fields) = fields.
Proof.
  intros Hne H. induction H as [|f fs Hf Hfs IH]; [done|].
  destruct fs as [|f' fs].
  - simpl. by apply split_no_sep.
  - change (join sep (f :: f' :: fs)) with (f ++ sep :: join sep (f' :: fs)).
    rewrite split_app by done. by rewrite IH.
Qed.

Lemma splitlines_app l s :
  Forall (fun c => is_linebreak c = false) l ->
  splitlines (l ++ NL :: s) = l :: splitlines s.
Proof.
  induction 1 as [|c l Hc Hl IH]; [reflexivity|].
  simpl. by rewrite Hc, IH.
Qed.

Lemma splitlines_line l :
  l <> [] -> Forall (fun c => is_linebreak c = false) l -> splitlines l = [l].
Proof.
  intros Hne H. induction H as [|c l Hc Hl IH]; [done|].
  simpl. rewrite Hc. destruct l as [|d l]; [reflexivity|].
  by rewrite IH.
Qed.

Lemma splitlines_join lines :
  Forall (Forall (fun c => is_linebreak c = false)) lines ->
  last lines <> Some [] ->
  splitlines (join NL lines) = lines.
Proof.
  induction 1 as [|l ls Hl Hls IH]; intros Hlast; [reflexivity|].
  destruct ls as [|l' ls].
  - simpl. apply splitlines_line; [|done]. by intros ->.
  - change (join NL (l :: l' :: ls)) with (l ++ NL :: join NL (l' :: ls)).
    rewrite splitlines_app by done. by rewrite IH.
Qed.

Lemma join_nil sep fields : join sep fields = [] -> fields = [] \/ fields = [[]].
Proof.
  destruct fields as [|f [|f' fs]]; simpl; auto.
  - intros ->. by right.
  - intros H. by apply app_eq_nil in H as [_ ?].
Qed.

Lemma join_no_linebreak rec :
  Forall (Forall field_char) rec ->
  Forall (fun c => is_linebreak c = false) (join TAB rec).
Proof.
  induction 1 as [|f fs Hf Hfs IH]; [constructor|].
  assert (Hf' : Forall (fun c => is_linebreak c = false) f).
  { eapply Forall_impl; [exact Hf|]. by intros c [_ ?]. }
  destruct fs as [|f' fs]; [exact Hf'|].
  change (join TAB (f :: f' :: fs)) with (f ++ TAB :: join TAB (f' :: fs)).
  apply Forall_app. split; [exact Hf'|]. by constructor.
Qed.

Lemma last_map_join recs :
  last (List.map (join TAB) recs) = join TAB <$> last recs.
Proof.
  induction recs as [|r [|r' rs] IH]; [reflexivity..|].
  change (last (join TAB r :: List.map (join TAB) (r' :: rs))
          = join TAB <$> last (r' :: rs)). exact IH.
Qed.

Lemma decode_encode recs :
  Forall record_ok recs -> last recs <> Some [[]] ->
  decode_output (PyStr (encode_records recs)) = Ok (Some recs).
Proof.
  intros Hok Hlast. unfold decode_output, encode_records.
  rewrite splitlines_join.
  - do 2 f_equal. rewrite List.map_map.
    induction Hok as [|r rs [Hne Hr] Hrs IH]; [reflexivity|]. simpl.
    f_equal.
    + apply split_join; [done|]. eapply Forall_impl; [exact Hr|].
      intros f Hf. eapply Forall_impl; [exact Hf|]. by intros c [? _].
    + apply IH. intros H. apply Hlast. by destruct rs.
  - induction Hok as [|r rs [Hne Hr] Hrs IH]; constructor.
    + by apply join_no_linebreak.
    + apply IH. intros H. apply Hlast. by destruct rs.
  - rewrite last_map_join. intros H.
    destruct (last recs) as [r|] eqn:E; [|done]. simpl in H.
    injection H as H. apply join_nil in H as [->| ->]; [|done].
    apply last_Some_elem_of in E.
    eapply Forall_forall in Hok as [? _]; [|exact E]. done.
Qed.

(** ** The claims about the decoder *)

(** C7: empty output text decodes to the empty sequence of records, the
    absence value decodes to the absence value, and the two results
    differ. *)
Theorem decode_empty_not_absent :
  decode_output (PyStr []) = Ok (Some [])
  /\ decode_output PyNone = Ok None
  /\ decode_output (PyStr []) <> decode_output PyNone.
Proof. by repeat split. Qed.

(** C8, as stated, fails: one record with one empty field is written as the
    empty text, which decodes to no record at all; so does a record without
    fields; and a field that contains a tab or a line boundary comes back
    as two. *)
Lemma decode_encode_counterexample :
  (encode_records [[[]]] = []
   /\ decode_output (PyStr (encode_records [[[]]])) = Ok (Some [])
   /\ decode_output (PyStr (encode_records [[[]]])) <> Ok (Some [[[]]]))
  /\ decode_output (PyStr (encode_records [[]])) <> Ok (Some [[]])
  /\ decode_output (PyStr (encode_records [[str_of "a" ++ TAB :: str_of "b"]]))
     = Ok (Some [[str_of "a"; str_of "b"]])
  /\ decode_output (PyStr (encode_records [[str_of "a" ++ CR :: str_of "b"]]))
     = Ok (Some [[str_of "a"]; [str_of "b"]]).
Proof. by repeat split. Qed.

(** C8, amended: for every sequence of records in which each record has at
    least one field, no field contains a tab or a line boundary of
    [str.splitlines], and the last record is not a single empty field,
    joining the fields with tabs and the records with newlines and decoding
    the text gives back the same sequence of field sequences; empty fields
    are kept and no delimiters are merged. *)
Theorem decode_encode_roundtrip recs :
  Forall record_ok recs -> last recs <> Some [[]] ->
  decode_output (PyStr (encode_records recs)) = Ok (Some recs).
Proof. apply decode_encode. Qed.

Lemma decode_encode_roundtrip_witness :
  decode_output
    (PyStr (encode_records
              [[str_of "tank"; []; str_of "-"]; [[]]; [[]; []; str_of "on"]]))
  = Ok (Some [[str_of "tank"; []; str_of "-"]; [[]]; [[]; []; str_of "on"]]).
Proof.
  apply decode_encode_roundtrip; [|by vm_compute].
  repeat (apply List.Forall_cons || apply List.Forall_nil); split;
    try done; by (apply (bool_decide_unpack _); vm_compute).
Defined.

(** ** The runner *)

Lemma get_truthy k kw :
  truthy (get k PyNone kw) = true -> kw !! k = Some (get k PyNone kw).
Proof. unfold get. by destruct (kw !! k). Qed.

Lemma in_map_to_list_keys (kw : gmap string pyval) k v :
  kw !! k = Some v -> In k (List.map fst (map_to_list kw)).
Proof.
  intros H. apply in_map_iff. exists (k, v). split; [reflexivity|].
  apply list_elem_of_In. by apply elem_of_map_to_list.
Qed.

(** [Popen] has no parameter for a keyword outside its signature. *)
Lemma popen_bind_unknown popenargs (kw : gmap string pyval) k v :
  kw !! k = Some v ->
  string_in k (popen_positional ++ popen_keyword_only) = false ->
  popen_bind popenargs kw = Raise TypeError.
Proof.
  intros Hk Hin. unfold popen_bind.
  destruct (negb (length popenargs <=? length popen_positional)%nat);
    [reflexivity|].
  destruct (forallb _ _) eqn:Hall; [|reflexivity].
  rewrite forallb_forall in Hall.
  specialize (Hall k (in_map_to_list_keys kw k v Hk)). congruence.
Qed.

Lemma popen_bind_lookup popenargs (kw : gmap string pyval) bound k v :
  popen_bind popenargs kw = Ok bound -> kw !! k = Some v ->
  bound !! k = Some v.
Proof.
  unfold popen_bind. intros H Hk.
  set (positional := (list_to_map (zip popen_positional popenargs)
                      : gmap string pyval)) in *.
  destruct (negb (length popenargs <=? length popen_positional)%nat); [done|].
  destruct (negb (forallb _ _)); [done|].
  destruct (existsb _ _) eqn:Hex; [done|].
  destruct (has_key "args" _); [|done]. injection H as <-.
  rewrite lookup_union_r; [exact Hk|].
  destruct (positional !! k) as [x|] eqn:E; [|reflexivity].
  assert (Hk' : existsb (fun k => has_key k positional)
                  (List.map fst (map_to_list kw)) = true).
  { apply existsb_exists. exists k. split.
    - by apply (in_map_to_list_keys kw k v).
    - unfold has_key. by rewrite E. }
  congruence.
Qed.

Lemma captured_text bound stream raw :
  bound !! stream = Some PIPE ->
  bound !! "universal_newlines" = Some (PyBool true) ->
  captured bound stream raw = PyStr raw.
Proof.
  intros Hs Hu. unfold captured, text_mode, get. rewrite Hs, Hu. simpl.
  by rewrite orb_true_r.
Qed.

(** *** Traces of composed runs *)

Lemma trace_bind {A B} (P : event -> Prop) (m : M A) (f : A -> M B) :
  Forall P (fst m) -> (forall a, Forall P (fst (f a))) ->
  Forall P (fst (bind m f)).
Proof.
  intros Hm Hf. destruct m as [tr [a|e]]; simpl; [|exact Hm].
  specialize (Hf a). destruct (f a) as [tr' r]. simpl in *.
  apply Forall_app. by split.
Qed.

Lemma trace_try {A} (P : event -> Prop) (body : M A) (handler : exn -> M A) :
  Forall P (fst body) -> (forall e, Forall P (fst (handler e))) ->
  Forall P (fst (try_except body handler)).
Proof.
  intros Hb Hh. destruct body as [tr [a|e]]; simpl; [exact Hb|].
  specialize (Hh e). destruct (handler e) as [tr' r]. simpl in *.
  apply Forall_app. by split.
Qed.

Lemma trace_finally {A} (P : event -> Prop) (body : M A) ev :
  Forall P (fst body) -> P ev -> Forall P (fst (finally body ev)).
Proof.
  intros Hb Hev. destruct body as [tr r]. simpl in *.
  apply Forall_app. split; [exact Hb|]. by constructor.
Qed.

Lemma trace_call {A} (P : event -> Prop) ev (r : result A) :
  P ev -> Forall P (fst (call ev r)).
Proof. intros H. simpl. by constructor. Qed.

Lemma in_bind_l {A B} ev (m : M A) (f : A -> M B) :
  In ev (fst m) -> In ev (fst (bind m f)).
Proof.
  destruct m as [tr [a|e]]; simpl; [|done].
  destruct (f a) as [tr' r]. simpl. intros H. apply in_or_app. by left.
Qed.

Lemma in_bind_ok {A B} ev tr (a : A) (f : A -> M B) :
  In ev (fst (f a)) -> In ev (fst (bind (tr, Ok a) f)).
Proof.
  simpl. destruct (f a) as [tr' r]. simpl. intros H. apply in_or_app. by right.
Qed.

Lemma in_try {A} ev (body : M A) (handler : exn -> M A) :
  In ev (fst body) -> In ev (fst (try_except body handler)).
Proof.
  destruct body as [tr [a|e]]; simpl; [done|].
  destruct (handler e) as [tr' r]. simpl. intros H. apply in_or_app. by left.
Qed.

Ltac trace_step :=
  lazymatch goal with
  | |- Forall _ (fst (bind _ _)) => apply trace_bind; [|intros ?]
  | |- Forall _ (fst (try_except _ _)) => apply trace_try; [|intros ?]
  | |- Forall _ (fst (finally _ _)) => apply trace_finally
  | |- Forall _ (fst (call _ _)) => apply trace_call
  | |- Forall _ (fst (ret _)) => by constructor
  | |- Forall _ (fst (raise _)) => by constructor
  | |- Forall _ (fst (lift _)) => by constructor
  | |- Forall _ (fst (let '(_, _) := ?p in _)) => destruct p
  | |- Forall _ (fst (if ?b then _ else _)) => destruct b eqn:?
  | |- Forall _ (fst (match ?e with _ => _ end)) => destruct e
  end.

(** The local branch calls [communicate] without input. *)
Lemma run_local_communicate os popenargs timeout check kw i t :
  In (EvCommunicate i t) (fst (run_local os popenargs timeout check kw)) ->
  i = PyNone.
Proof.
  assert (H : Forall (fun ev => forall i t, ev = EvCommunicate i t -> i = PyNone)
                (fst (run_local os popenargs timeout check kw))).
  { unfold run_local, Popen. repeat trace_step; by intros ? ? [=]. }
  intros Hin. eapply Forall_forall in H; [|by apply list_elem_of_In].
  by eapply H.
Qed.

(** The remote branch reads [kwargs] at the key [stdin] only. *)
Lemma run_remote_stdin ssh popenargs timeout check (kw kw' : gmap string pyval) :
  kw' !! "stdin" = kw !! "stdin" ->
  run_remote ssh popenargs timeout check kw'
  = run_remote ssh popenargs timeout check kw.
Proof. intros H. unfold run_remote, get. by rewrite H. Qed.

Lemma run_remote_copies ssh popenargs timeout check kw src len :
  In (EvCopyFileObj src len) (fst (run_remote ssh popenargs timeout check kw)) ->
  kw !! "stdin" = Some src /\ truthy src = true /\ len = 131072%Z.
Proof.
  assert (H : Forall (fun ev => forall src len, ev = EvCopyFileObj src len ->
                kw !! "stdin" = Some src /\ truthy src = true
                /\ len = 131072%Z)
                (fst (run_remote ssh popenargs timeout check kw))).
  { unfold run_remote, copyfileobj. repeat trace_step; try by intros ? ? [=].
    intros ? ? [= <- <-]. split; [by apply get_truthy|]. by split. }
  intros Hin. eapply Forall_forall in H; [|by apply list_elem_of_In].
  by eapply H.
Qed.

Lemma run_remote_closes ssh popenargs timeout check kw cmd :
  remote_args popenargs = Ok cmd ->
  exec_command ssh cmd (tail popenargs) timeout = Returns tt ->
  truthy (get "stdin" PyNone kw) = false
  \/ (exists id, kw !! "stdin" = Some (PyObj id)
        /\ copy_to_stdin ssh (PyObj id) = Returns tt) ->
  In EvStdinClose (fst (run_remote ssh popenargs timeout check kw)).
Proof.
  intros Hcmd Hexec Hcopy. unfold run_remote. rewrite Hcmd.
  apply in_bind_ok.
  destruct (first_arg popenargs) as [a|e] eqn:Ha; [|by destruct popenargs].
  apply in_bind_ok, in_bind_l, in_try.
  rewrite Hexec. apply in_bind_ok.
  destruct Hcopy as [Hf|(id & Hk & Hc)].
  - rewrite Hf. apply in_bind_ok, in_bind_l. by left.
  - unfold get, copyfileobj. rewrite Hk. cbn [truthy]. rewrite Hc.
    apply in_bind_ok, in_bind_l. by left.
Qed.

(** *** Outcomes of composed runs *)

Lemma raises_bind {A B} Q (m : M A) (f : A -> M B) :
  raises_only Q m -> (forall a, raises_only Q (f a)) ->
  raises_only Q (bind m f).
Proof.
  unfold raises_only. intros Hm Hf e. destruct m as [tr [a|e']]; simpl.
  - specialize (Hf a e). by destruct (f a).
  - intros [= <-]. by apply Hm.
Qed.

Lemma raises_try {A} Q (body : M A) (handler : exn -> M A) :
  raises_only Q body -> (forall e, Q e -> raises_only Q (handler e)) ->
  raises_only Q (try_except body handler).
Proof.
  unfold raises_only. intros Hb Hh e. destruct body as [tr [a|e']]; simpl;
    [done|].
  specialize (Hh e' (Hb e' eq_refl) e). by destruct (handler e').
Qed.

Lemma raises_finally {A} Q (body : M A) ev :
  raises_only Q body -> raises_only Q (finally body ev).
Proof. unfold raises_only. destruct body as [tr r]. simpl. auto. Qed.

Lemma raises_answer {A} Q ev on_timeout (o : outcome A) :
  Q on_timeout -> (forall id, Q (OtherError id)) ->
  raises_only Q (call ev (answer on_timeout o)).
Proof.
  unfold raises_only. intros Ht Ho e. destruct o; simpl; [done|..];
    intros [= <-]; auto.
Qed.

Lemma returns_bind {A B} (R1 : A -> Prop) (R : B -> Prop) (m : M A)
    (f : A -> M B) :
  returns_only R1 m -> (forall a, R1 a -> returns_only R (f a)) ->
  returns_only R (bind m f).
Proof.
  unfold returns_only. intros Hm Hf b. destruct m as [tr [a|e]]; simpl; [|done].
  specialize (Hf a (Hm a eq_refl) b). by destruct (f a).
Qed.

Lemma returns_try {A} (R : A -> Prop) (body : M A) (handler : exn -> M A) :
  returns_only R body -> (forall e, returns_only R (handler e)) ->
  returns_only R (try_except body handler).
Proof.
  unfold returns_only. intros Hb Hh a. destruct body as [tr [a'|e]]; simpl.
  - apply Hb.
  - specialize (Hh e a). by destruct (handler e).
Qed.

Lemma returns_finally {A} (R : A -> Prop) (body : M A) ev :
  returns_only R body -> returns_only R (finally body ev).
Proof. unfold returns_only. destruct body as [tr r]. simpl. auto. Qed.

Lemma returns_any {A} (m : M A) : returns_only (fun _ => True) m.
Proof. by intros a _. Qed.

Ltac raises_step :=
  lazymatch goal with
  | |- raises_only _ (bind _ _) => apply raises_bind; [|intros ?]
  | |- raises_only _ (try_except _ _) => apply raises_try; [|intros ? ?]
  | |- raises_only _ (finally _ _) => apply raises_finally
  | |- raises_only _ (call _ (answer _ _)) => apply raises_answer; [done|done]
  | |- raises_only _ (call _ (Ok _)) => by intros ? [=]
  | |- raises_only _ (call _ (Raise _)) => by intros ? [= <-]
  | |- raises_only _ (call _ (match ?v with _ => _ end)) => destruct v
  | |- raises_only _ (ret _) => by intros ? [=]
  | |- raises_only _ (raise _) => by intros ? [= <-]
  | |- raises_only _ (let '(_, _) := ?p in _) => destruct p
  | |- raises_only _ (if ?b then _ else _) => destruct b eqn:?
  | |- raises_only _ (match ?e with _ => _ end) => destruct e eqn:?
  end.

Lemma popen_bind_raises popenargs kw e :
  popen_bind popenargs kw = Raise e -> e = TypeError.
Proof.
  unfold popen_bind. repeat case_match; congruence.
Qed.

Lemma remote_args_raises popenargs e :
  remote_args popenargs = Raise e -> no_exit_status e.
Proof.
  unfold remote_args. repeat case_match; by intros [= <-].
Qed.

Lemma first_arg_raises popenargs e :
  first_arg popenargs = Raise e -> no_exit_status e.
Proof. destruct popenargs; by intros [= <-]. Qed.

(** Without [check], [run] never turns an exit status into an exception. *)
Lemma run_unchecked os popenargs timeout check ssh kw :
  truthy check = false ->
  raises_only no_exit_status (run os popenargs timeout check ssh kw).
Proof.
  intros Hc. destruct ssh as [client|]; simpl.
  - unfold run_remote, copyfileobj. rewrite Hc. simpl andb.
    repeat first
      [ raises_step
      | by (intros ? [= ?]; eauto using remote_args_raises, first_arg_raises)
      | by (intros ? ?; repeat case_match; simplify_eq) ].
  - unfold run_local, Popen. rewrite Hc. simpl andb.
    repeat first
      [ raises_step
      | by (intros ? [= ?]; eauto using first_arg_raises)
      | by (intros ? H; apply popen_bind_raises in H as ->) ].
Qed.

Ltac skip_bind :=
  apply (returns_bind (fun _ => True)); [apply returns_any|intros ? _].
Ltac skip_binds := repeat skip_bind.

(** With both streams piped in text mode, a completed run carries text. *)
Lemma run_captures_text os popenargs timeout check ssh (kw : gmap string pyval) :
  kw !! "stdout" = Some PIPE -> kw !! "stderr" = Some PIPE ->
  kw !! "universal_newlines" = Some (PyBool true) ->
  returns_only
    (fun r => exists out err, stdout r = PyStr out /\ stderr r = PyStr err)
    (run os popenargs timeout check ssh kw).
Proof.
  intros Hout Herr Hu. destruct ssh as [client|]; simpl.
  - unfold run_remote. do 2 skip_bind.
    apply (returns_bind (fun r => exists out err,
             fst (snd r) = PyStr out /\ snd (snd r) = PyStr err)).
    + apply returns_try; [|intros e; destruct e; by intros ? [=]].
      skip_binds. intros ? [= <-]. simpl. eauto.
    + intros r (out & err & Ho & He).
      destruct (_ && _); [by intros ? [=]|]. intros ? [= <-]. simpl. eauto.
  - unfold run_local.
    apply (returns_bind (fun p => popen_bind popenargs kw = Ok (fst p))).
    { unfold Popen, bind, lift, call, raise. intros p.
      destruct (popen_bind popenargs kw) as [bound|]; [|done].
      destruct (spawn os bound); simpl; [|done]. by intros [= <-]. }
    intros [bound c] Hb. simpl in Hb.
    apply (returns_bind (fun r => exists out err,
             fst (snd r) = PyStr out /\ snd (snd r) = PyStr err)).
    + apply returns_finally.
      apply (returns_bind (fun s => exists out err, s = (PyStr out, PyStr err))).
      * apply returns_try.
        -- skip_binds. intros ? [= <-]. unfold captured_pair.
           rewrite !captured_text by eauto using popen_bind_lookup. eauto.
        -- intros e. destruct (is_timeout_expired e); skip_binds;
             by intros ? [=].
      * intros s (out & err & ->). skip_binds.
        destruct (_ && _); [by intros ? [=]|]. intros ? [= <-]. simpl. eauto.
    + intros r (out & err & Ho & He). skip_binds. intros ? [= <-]. simpl. eauto.
Qed.

Lemma normalize_input_lookup (kw : gmap string pyval) k :
  k <> "input"%string -> normalize_input kw !! k = kw !! k.
Proof.
  intros Hk. unfold normalize_input.
  destruct (kw !! "input") as [[]|]; try reflexivity.
  by rewrite lookup_insert_ne.
Qed.

Lemma get_normalize_input (kw : gmap string pyval) k d :
  k <> "input"%string -> get k d (normalize_input kw) = get k d kw.
Proof. intros Hk. unfold get. by rewrite normalize_input_lookup. Qed.

(** What [check_output] does with the outcome of its call of [run]. *)
Lemma check_output_after_run os popenargs timeout ssh kw :
  has_key "stdout" kw = false -> has_key "universal_newlines" kw = false ->
  check_output os popenargs timeout ssh kw
  = match call_run os popenargs timeout ssh (normalize_input kw) with
    | (tr, Ok r) =>
        (tr, match check_returncode r with
             | Ok _ => decode_output (stdout r)
             | Raise e => Raise e
             end)
    | (tr, Raise e) => (tr, Raise e)
    end.
Proof.
  intros H1 H2. unfold check_output. rewrite H1, H2. cbv zeta.
  destruct (call_run _ _ _ _ _) as [tr [r|e]]; [|reflexivity].
  unfold bind, lift. destruct (check_returncode r) as [[]|e]; simpl;
    by rewrite app_nil_r.
Qed.

Lemma call_run_captures_text os popenargs timeout ssh kw :
  returns_only
    (fun r => exists out err, stdout r = PyStr out /\ stderr r = PyStr err)
    (call_run os popenargs timeout ssh kw).
Proof.
  unfold call_run. destruct (existsb _ fixed_keywords); [by intros ? [=]|].
  apply run_captures_text; unfold run_keywords; by simplify_map_eq.
Qed.

Lemma call_run_unchecked os popenargs timeout ssh kw :
  truthy (get "check" (PyBool false) kw) = false ->
  raises_only no_exit_status (call_run os popenargs timeout ssh kw).
Proof.
  intros Hc. unfold call_run.
  destruct (existsb _ fixed_keywords); [by intros ? [= <-]|].
  by apply run_unchecked.
Qed.

(** ** The claims about the runner and the checked entry point *)

(** C1: the code does not do what the claim says.  [check_output] rejects
    [universal_newlines] among the caller's keywords, so the test of line 77
    never sees it: [input=None] always becomes the empty [bytes] value,
    although [run] is then called with [universal_newlines=True], that is, in
    text mode.  (The call behaves like the one with an explicit empty
    payload, of either kind.) *)
Theorem input_none_normalized_to_bytes (kw : gmap string pyval) :
  has_key "universal_newlines" kw = false ->
  kw !! "input" = Some PyNone ->
  normalize_input kw = <["input" := PyBytes []]> kw
  /\ text_mode (delete "check" (run_keywords (normalize_input kw))) = true
  /\ (forall os popenargs timeout ssh,
        check_output os popenargs timeout ssh (<["input" := PyBytes []]> kw)
        = check_output os popenargs timeout ssh kw)
  /\ (forall os popenargs timeout ssh,
        check_output os popenargs timeout ssh (<["input" := PyStr []]> kw)
        = check_output os popenargs timeout ssh kw).
Proof.
  intros Hu Hin.
  assert (Hn : normalize_input kw = <["input" := PyBytes []]> kw).
  { unfold normalize_input, get. rewrite Hin.
    unfold has_key in Hu. by destruct (kw !! "universal_newlines"). }
  assert (Hkeys : forall v k, k <> "input"%string ->
            has_key k (<["input" := v]> kw) = has_key k kw).
  { intros v k Hk. unfold has_key. by rewrite lookup_insert_ne. }
  assert (Hnv : forall v, v <> PyNone ->
            normalize_input (<["input" := v]> kw) = <["input" := v]> kw).
  { intros v Hv. unfold normalize_input. rewrite lookup_insert_eq.
    by destruct v. }
  split; [exact Hn|]. split.
  { unfold text_mode, get, run_keywords. simplify_map_eq. simpl.
    by rewrite orb_true_r. }
  split.
  - intros os popenargs timeout ssh. unfold check_output.
    rewrite !Hkeys by done. by rewrite Hnv, Hn.
  - intros os popenargs timeout ssh. unfold check_output.
    rewrite !Hkeys by done. rewrite Hnv, Hn by done.
    destruct (has_key "stdout" kw); [reflexivity|].
    destruct (has_key "universal_newlines" kw); [reflexivity|].
    cbv zeta. f_equal. unfold call_run.
    assert (Hf : forall v,
              existsb (fun k => has_key k (<["input" := v]> kw)) fixed_keywords
              = existsb (fun k => has_key k kw) fixed_keywords).
    { intros v. unfold fixed_keywords. cbn [existsb].
      by rewrite !Hkeys by done. }
    rewrite !Hf. destruct (existsb _ fixed_keywords); [reflexivity|].
    unfold get. rewrite !lookup_insert_ne by done.
    destruct ssh as [client|]; simpl.
    + apply run_remote_stdin. unfold run_keywords. by simplify_map_eq.
    + unfold run_local, Popen.
      rewrite (popen_bind_unknown popenargs _ "input" (PyStr []));
        [|unfold run_keywords; by simplify_map_eq|reflexivity].
      rewrite (popen_bind_unknown popenargs _ "input" (PyBytes []));
        [|unfold run_keywords; by simplify_map_eq|reflexivity].
      reflexivity.
Qed.

Lemma input_none_normalized_to_bytes_witness :
  normalize_input {[ "input" := PyNone ]} !! "input" = Some (PyBytes [])
  /\ text_mode (delete "check" (run_keywords (normalize_input {[ "input" := PyNone ]})))
     = true.
Proof.
  destruct (input_none_normalized_to_bytes {[ "input" := PyNone ]})
    as (H1 & H2 & _); [reflexivity|reflexivity|].
  split; [|exact H2]. rewrite H1. reflexivity.
Defined.

(** C2: the code does not do what the claim says.  The local branch passes
    an [input] keyword on to [Popen], which has no such parameter and raises
    [TypeError] before a child exists; and whatever the keywords are,
    [communicate] is only ever called without input. *)
Theorem local_input_not_written os popenargs timeout check
    (kw : gmap string pyval) :
  (forall v, kw !! "input" = Some v ->
     run os popenargs timeout check None kw = ([], Raise TypeError))
  /\ (forall i t,
        In (EvCommunicate i t) (fst (run os popenargs timeout check None kw)) ->
        i = PyNone).
Proof.
  split.
  - intros v Hv. simpl. unfold run_local, Popen.
    by rewrite (popen_bind_unknown popenargs kw "input" v).
  - intros i t. simpl. apply run_local_communicate.
Qed.

Lemma local_input_not_written_witness :
  run (mkLocalOs (fun _ => inl (mkChild (Returns ([], [])) ([], []) 0)))
    [PyList [PyStr (str_of "cat")]] PyNone (PyBool false) None
    {[ "input" := PyBytes (str_of "hello") ]}
  = ([], Raise TypeError).
Proof.
  apply (proj1 (local_input_not_written _ _ _ _ _) (PyBytes (str_of "hello"))).
  reflexivity.
Defined.

(** C6, as stated, fails: a caller may pass [check=True] through
    [check_output], and [run] then raises the generic failure for the
    non-zero exit itself, before the classifier is reached. *)
Lemma checked_entry_point_check_counterexample :
  let os := mkLocalOs (fun _ => inl (mkChild
              (Returns ([], str_of "cannot destroy 'tank/data': dataset is busy"
                            ++ [NL])) ([], []) 1)) in
  let cmd := PyList [PyStr (str_of "zfs"); PyStr (str_of "destroy");
                     PyStr (str_of "tank/data")] in
  snd (check_output os [cmd] PyNone None ∅)
  = Raise (ZFSError DatasetBusyError (str_of "tank/data"))
  /\ snd (check_output os [cmd] PyNone None {[ "check" := PyBool true ]})
     = Raise (CalledProcessError 1 cmd (PyStr [])
                (PyStr (str_of "cannot destroy 'tank/data': dataset is busy"
                        ++ [NL]))).
Proof. cbv zeta. split; by vm_compute. Qed.

(** C6, amended: for every invocation of [check_output] that passes its two
    guards and does not itself ask for [check]: if the run does not complete
    (bad arguments, timeout, a collaborator's failure), that exception, which
    carries no exit status, is raised; if it completes, both streams are
    text, and with exit code 0 the decoded output is returned, while with a
    non-zero exit code the classifier decides first: its typed error is
    raised if it yields one, and otherwise the generic failure carrying the
    exit code, the command and both captured streams. *)
Theorem checked_entry_point os popenargs timeout ssh kw :
  has_key "stdout" kw = false ->
  has_key "universal_newlines" kw = false ->
  truthy (get "check" (PyBool false) kw) = false ->
  match call_run os popenargs timeout ssh (normalize_input kw) with
  | (tr, Raise e) =>
      no_exit_status e
      /\ check_output os popenargs timeout ssh kw = (tr, Raise e)
  | (tr, Ok r) =>
      exists out err,
        stdout r = PyStr out /\ stderr r = PyStr err
        /\ if (returncode r =? 0)%Z then
             check_output os popenargs timeout ssh kw
             = (tr, Ok (Some (List.map (split TAB) (splitlines out))))
           else
             (exists e d,
                check_returncode r = Raise (ZFSError e d)
                /\ check_output os popenargs timeout ssh kw
                   = (tr, Raise (ZFSError e d)))
             \/ ((forall e d, check_returncode r <> Raise (ZFSError e d))
                 /\ check_output os popenargs timeout ssh kw
                    = (tr, Raise (CalledProcessError (returncode r) (args r)
                                    (PyStr out) (PyStr err))))
  end.
Proof.
  intros H1 H2 Hc. rewrite check_output_after_run by done.
  pose proof (call_run_captures_text os popenargs timeout ssh
                (normalize_input kw)) as Htext.
  pose proof (call_run_unchecked os popenargs timeout ssh (normalize_input kw))
    as Hraise.
  rewrite get_normalize_input in Hraise by done. specialize (Hraise Hc).
  destruct (call_run _ _ _ _ _) as [tr [r|e]].
  - destruct (Htext r eq_refl) as (out & err & Ho & He).
    exists out, err. split; [exact Ho|]. split; [exact He|].
    destruct (Z.eqb_spec (returncode r) 0) as [H0|H0].
    + unfold check_returncode, super_check_returncode. rewrite H0. simpl.
      by rewrite Ho.
    + destruct (check_returncode_cases r err He)
        as [Hs|(e & d & Hz & _)].
      * right. rewrite Hs. unfold super_check_returncode.
        destruct (Z.eqb_spec (returncode r) 0); [done|].
        split; [done|]. by rewrite Ho, He.
      * left. exists e, d. by rewrite Hz.
  - split; [by apply Hraise|reflexivity].
Qed.

Lemma checked_entry_point_witness :
  exists tr,
    check_output
      (mkLocalOs (fun _ => inl (mkChild
         (Returns (str_of "tank" ++ TAB :: str_of "1G" ++ [NL], [])) ([], []) 0)))
      [PyList [PyStr (str_of "zfs"); PyStr (str_of "list")]] PyNone None ∅
    = (tr, Ok (Some [[str_of "tank"; str_of "1G"]])).
Proof.
  pose proof (checked_entry_point
    (mkLocalOs (fun _ => inl (mkChild
       (Returns (str_of "tank" ++ TAB :: str_of "1G" ++ [NL], [])) ([], []) 0)))
    [PyList [PyStr (str_of "zfs"); PyStr (str_of "list")]] PyNone None ∅
    eq_refl eq_refl eq_refl) as H.
  destruct (call_run _ _ _ _ _) as [tr [r|e]] eqn:Hrun.
  - exists tr. destruct H as (out & err & Ho & He & H).
    vm_compute in Hrun. injection Hrun as <- <-.
    injection Ho as <-. exact H.
  - vm_compute in Hrun. discriminate Hrun.
Defined.

(** * Further properties of the code *)

(** ** What a match of the pattern says about the text *)

Lemma star_class_inv g body P k :
  (forall k' st, body k' st = step1 P k' st) ->
  forall n st m, star_loop g body k n st = Some m ->
    exists t st', k st' = Some m /\ rest st = t ++ rest st'
                  /\ Forall (fun c => P c = true) t
                  /\ groups st' = groups st.
Proof.
  intros Hb. induction n as [|n IH]; intros st m H.
  - exists [], st. by repeat split.
  - simpl in H.
    assert (Hstop : k st = Some m ->
              exists t st', k st' = Some m /\ rest st = t ++ rest st'
                            /\ Forall (fun c => P c = true) t
                            /\ groups st' = groups st).
    { intros Hk. exists [], st. by repeat split. }
    assert (Hmore : body (star_loop g body k n) st = Some m ->
              exists t st', k st' = Some m /\ rest st = t ++ rest st'
                            /\ Forall (fun c => P c = true) t
                            /\ groups st' = groups st).
    { rewrite Hb. intros Hm.
      apply step1_inv in Hm as (c & s & Hs & Hc & Hm).
      apply IH in Hm as (t & st' & Hk & Hr & Ht & Hg). simpl in Hr, Hg.
      exists (c :: t), st'. rewrite Hs, Hr. repeat split; auto. }
    destruct g.
    + destruct (body (star_loop true body k n) st) as [m'|] eqn:E.
      * injection H as ->. by apply Hmore.
      * by apply Hstop.
    + destruct (k st) as [m'|] eqn:E.
      * injection H as ->. by apply Hstop.
      * by apply Hmore.
Qed.

Lemma plus_class_inv r P k st m :
  (forall k' st', rmatch r k' st' = step1 P k' st') ->
  rmatch (plus r) k st = Some m ->
  exists t st', k st' = Some m /\ rest st = t ++ rest st' /\ t <> []
                /\ Forall (fun c => P c = true) t
                /\ groups st' = groups st.
Proof.
  intros Hr H. unfold plus in H. rewrite rmatch_Cat, Hr in H.
  apply step1_inv in H as (c & s & Hs & Hc & H).
  cbn [rmatch] in H.
  apply (star_class_inv true (rmatch r) P k Hr) in H
    as (t & st' & Hk & Hrest & Ht & Hg). simpl in Hrest, Hg.
  exists (c :: t), st'. rewrite Hs, Hrest. repeat split; auto.
Qed.

(** The matcher only ever moves forward in the subject. *)
Lemma star_loop_suffix g body k :
  (forall k' st m, body k' st = Some m ->
     exists st', k' st' = Some m /\ exists t, rest st = t ++ rest st') ->
  forall n st m, star_loop g body k n st = Some m ->
    exists st', k st' = Some m /\ exists t, rest st = t ++ rest st'.
Proof.
  intros Hb. induction n as [|n IH]; intros st m H.
  - exists st. split; [exact H|]. by exists [].
  - simpl in H.
    assert (Hmore : body (star_loop g body k n) st = Some m ->
              exists st', k st' = Some m /\ exists t, rest st = t ++ rest st').
    { intros Hm. apply Hb in Hm as (st1 & Hm & t1 & H1).
      apply IH in Hm as (st2 & Hm & t2 & H2).
      exists st2. split; [exact Hm|]. exists (t1 ++ t2).
      by rewrite H1, H2, app_assoc. }
    destruct g.
    + destruct (body (star_loop true body k n) st) as [m'|] eqn:E.
      * injection H as ->. by apply Hmore.
      * exists st. split; [exact H|]. by exists [].
    + destruct (k st) as [m'|] eqn:E.
      * injection H as ->. exists st. split; [exact E|]. by exists [].
      * by apply Hmore.
Qed.

Lemma rmatch_suffix r : forall k st m,
  rmatch r k st = Some m ->
  exists st', k st' = Some m /\ exists t, rest st = t ++ rest st'.
Proof.
  assert (Hstep : forall P k st m, step1 P k st = Some m ->
            exists st', k st' = Some m /\ exists t, rest st = t ++ rest st').
  { intros P k st m H. apply step1_inv in H as (c & s & Hs & _ & H).
    eexists. split; [exact H|]. exists [c]. by rewrite Hs. }
  induction r as [| |c| |cs|r1 IH1 r2 IH2|g r IH|n r IH]; intros k st m H;
    simpl in H; eauto.
  - destruct (Nat.eqb (pos st) 0); [|done].
    exists st. split; [exact H|]. by exists [].
  - destruct (at_eol (rest st)); [|done].
    exists st. split; [exact H|]. by exists [].
  - apply IH1 in H as (st1 & H & t1 & H1). apply IH2 in H as (st2 & H & t2 & H2).
    exists st2. split; [exact H|]. exists (t1 ++ t2).
    by rewrite H1, H2, app_assoc.
  - by apply (star_loop_suffix g (rmatch r) k IH) in H.
  - apply IH in H as (st1 & H & t & Ht).
    eexists. split; [exact H|]. by exists t.
Qed.

Lemma rmatch_Chr_inv c k st m :
  rmatch (Chr c) k st = Some m ->
  exists s, rest st = c :: s /\ k (MState (S (pos st)) s (groups st)) = Some m.
Proof.
  simpl. intros H. apply step1_inv in H as (d & s & Hs & Hd & H).
  apply N.eqb_eq in Hd as <-. by exists s.
Qed.

Lemma at_eol_line_end s : at_eol s = true -> line_end s.
Proof.
  destruct s as [|c [|d s]]; simpl; try done.
  - by left.
  - intros H. apply N.eqb_eq in H as ->. by right.
Qed.

Lemma nonsp_Forall_inv t :
  Forall (fun c => nonsp c = true) t -> Forall (fun c => c <> SP) t.
Proof.
  intros H. eapply Forall_impl; [exact H|]. intros c Hc ->. by vm_compute in Hc.
Qed.

Lemma nonnl_Forall_inv t :
  Forall (fun c => nonnl c = true) t -> Forall (fun c => c <> NL) t.
Proof.
  intros H. eapply Forall_impl; [exact H|]. intros c Hc ->. by vm_compute in Hc.
Qed.

(** Every text the pattern matches reads [cannot <action> <object>: <reason>]
    with, at most, one newline after it; groups 2 and 3 are the object and
    the reason. *)
Lemma re_search_inv s m :
  re_search pattern s = Some m ->
  exists action o r nl,
    s = str_of "cannot " ++ action ++ SP :: o ++ str_of ": " ++ r ++ nl
    /\ action <> [] /\ token o /\ one_line r /\ line_end nl
    /\ group m 2 = Some o /\ group m 3 = Some r.
Proof.
  intros H. apply re_search_start in H. unfold pattern in H.
  rewrite rmatch_Cat in H. cbn [rmatch pos Nat.eqb] in H.
  apply rmatch_lit_inv in H as (u & -> & H).
  rewrite rmatch_Cat, rmatch_Grp, rmatch_Cat in H.
  apply (plus_class_inv nonspace nonsp) in H
    as (a & st1 & H & Ha & Hane & _ & _); [|apply rmatch_nonspace].
  apply rmatch_suffix in H as (st2 & H & t & Ht).
  cbn [rest] in Ha. rewrite rmatch_Cat in H.
  apply rmatch_Chr_inv in H as (s3 & Hs3 & H).
  cbn [rest pos groups set_group] in Hs3.
  rewrite rmatch_Cat, rmatch_Grp in H.
  apply (plus_class_inv nonspace nonsp) in H
    as (o & st4 & H & Ho & Hone & Hof & Hg4); [|apply rmatch_nonspace].
  cbn [rest groups] in Ho, Hg4.
  rewrite (consumed_eq _ _ o) in H by exact Ho.
  unfold set_group in H.
  apply rmatch_lit_inv in H as (u5 & Hu5 & H). cbn [rest] in Hu5.
  rewrite rmatch_Cat, rmatch_Grp in H.
  apply (plus_class_inv Dot nonnl) in H
    as (r & st6 & H & Hr & Hrne & Hrf & Hg6); [|apply rmatch_dot].
  cbn [rest groups] in Hr, Hg6.
  rewrite (consumed_eq _ _ r) in H by exact Hr.
  cbn [rmatch] in H. destruct (at_eol _) eqn:Heol; [|done].
  injection H as <-. cbn [rest set_group] in Heol.
  exists (a ++ t), o, r, (rest st6).
  split.
  { f_equal. rewrite Ha, Ht, Hs3, Ho, Hu5, Hr, <- !app_assoc. reflexivity. }
  split; [by destruct a|].
  split; [split; [done|by apply nonsp_Forall_inv]|].
  split; [split; [done|by apply nonnl_Forall_inv]|].
  split; [by apply at_eol_line_end|].
  unfold group, set_group. cbn [groups assoc Nat.eqb]. rewrite Hg6.
  cbn [assoc Nat.eqb]. by split.
Qed.

Lemma unquote_no_space o d :
  Forall (fun c => c <> SP) o -> unquote o = Ok d -> Forall (fun c => c <> SP) d.
Proof.
  unfold unquote. intros Ho H.
  destruct (head o); [|done]. destruct (last o); [|done].
  destruct (_ && _); injection H as <-; [|exact Ho].
  unfold slice. by apply Forall_take, Forall_drop.
Qed.

(** ** More about [check_returncode] *)

Lemma strerror_inj e e' : strerror e = strerror e' -> e = e'.
Proof. intros H. destruct e, e'; try reflexivity; by vm_compute in H. Qed.

Lemma check_returncode_typed_inv self e d :
  check_returncode self = Raise (ZFSError e d) ->
  returncode self = 1%Z
  /\ exists action o nl,
       stderr self
       = PyStr (str_of "cannot " ++ action ++ SP :: o ++ str_of ": "
                ++ strerror e ++ nl)
       /\ action <> [] /\ token o /\ unquote o = Ok d /\ line_end nl.
Proof.
  unfold check_returncode. intros H.
  destruct (Z.eqb_spec (returncode self) 1) as [Hrc|Hrc].
  - split; [exact Hrc|].
    destruct (stderr self) as [| | |text| | |]; try done.
    destruct (re_search pattern text) as [m|] eqn:Hm.
    + destruct (re_search_inv _ _ Hm)
        as (action & o & r & nl & -> & Ha & Ho & Hr & Hnl & H2 & H3).
      rewrite H2, H3 in H.
      destruct (unquote_token o Ho) as [d' Hd]. rewrite Hd in H.
      destruct (List.find _ known_errors) as [e'|] eqn:Hf.
      * injection H as -> ->. apply List.find_some in Hf as [_ Hf].
        apply bool_decide_eq_true in Hf as ->.
        by exists action, o, nl.
      * unfold super_check_returncode in H. by destruct (_ =? 0)%Z.
    + unfold super_check_returncode in H. by destruct (_ =? 0)%Z.
  - unfold super_check_returncode in H. by destruct (_ =? 0)%Z.
Qed.

(** X1: a typed error is only ever raised for exit code 1 and an error text
    that reads [cannot <action> <object>: <reason>], ended by nothing or one
    newline, where the reason is the class's own reason string and the
    carried name is the object token after quote stripping. *)
Theorem typed_error_reads_message self e d :
  check_returncode self = Raise (ZFSError e d) ->
  returncode self = 1%Z
  /\ exists action o nl,
       stderr self
       = PyStr (str_of "cannot " ++ action ++ SP :: o ++ str_of ": "
                ++ strerror e ++ nl)
       /\ action <> [] /\ token o /\ unquote o = Ok d /\ line_end nl.
Proof. apply check_returncode_typed_inv. Qed.

Lemma typed_error_reads_message_witness :
  exists action o nl,
    str_of "cannot hold tank@snap: tag already exists on this dataset" ++ [NL]
    = str_of "cannot " ++ action ++ SP :: o ++ str_of ": "
      ++ strerror HoldTagExistsError ++ nl
    /\ unquote o = Ok (str_of "tank@snap").
Proof.
  destruct (typed_error_reads_message
              (mkCompletedProcess (PyList [PyStr (str_of "zfs")]) 1 PyNone
                 (PyStr (str_of "cannot hold tank@snap: tag already exists on this dataset"
                         ++ [NL])))
              HoldTagExistsError (str_of "tank@snap"))
    as (_ & action & o & nl & Ht & _ & _ & Hd & _); [by vm_compute|].
  exists action, o, nl. split; [|exact Hd].
  exact (f_equal (fun v => match v with PyStr s => s | _ => [] end) Ht).
Defined.

(** X2: the name carried by a typed error never contains a space: of a
    dataset name with spaces only the last word is kept. *)
Theorem typed_error_object_has_no_space self e d :
  check_returncode self = Raise (ZFSError e d) ->
  Forall (fun c => c <> SP) d.
Proof.
  intros H. apply check_returncode_typed_inv in H
    as (_ & action & o & nl & _ & _ & [_ Ho] & Hd & _).
  by apply (unquote_no_space o).
Qed.

Lemma typed_error_object_has_no_space_witness :
  check_returncode
    (mkCompletedProcess (PyList [PyStr (str_of "zfs")]) 1 PyNone
       (PyStr (str_of "cannot open 'tank/my data': dataset does not exist")))
  = Raise (ZFSError DatasetNotFoundError (str_of "data'"))
  /\ Forall (fun c => c <> SP) (str_of "data'").
Proof.
  assert (H : check_returncode
    (mkCompletedProcess (PyList [PyStr (str_of "zfs")]) 1 PyNone
       (PyStr (str_of "cannot open 'tank/my data': dataset does not exist")))
    = Raise (ZFSError DatasetNotFoundError (str_of "data'"))) by (by vm_compute).
  split; [exact H|]. exact (typed_error_object_has_no_space _ _ _ H).
Defined.

Lemma check_returncode_not_text self :
  returncode self = 1%Z -> (forall text, stderr self <> PyStr text) ->
  check_returncode self = Raise TypeError.
Proof.
  intros Hrc Herr. unfold check_returncode. rewrite Hrc. simpl.
  destruct (stderr self) eqn:E; try reflexivity. by destruct (Herr s).
Qed.

(** X3: [check_returncode] returns normally exactly when the exit code is 0;
    what it raises is a typed error, the generic failure with the exit code,
    the command and both streams of the result, or, when the exit code is 1
    and the error stream was not captured as text, a [TypeError]. *)
Theorem check_returncode_outcomes self :
  (check_returncode self = Ok tt <-> returncode self = 0%Z)
  /\ (forall e, check_returncode self = Raise e ->
        e = CalledProcessError (returncode self) (args self) (stdout self)
              (stderr self)
        \/ (exists cls d, e = ZFSError cls d)
        \/ (e = TypeError /\ returncode self = 1%Z
            /\ forall text, stderr self <> PyStr text)).
Proof.
  assert (Hsuper : forall e, super_check_returncode self = Raise e ->
            e = CalledProcessError (returncode self) (args self) (stdout self)
                  (stderr self)).
  { unfold super_check_returncode. destruct (_ =? 0)%Z; [done|]. by intros e [=]. }
  assert (Hok : super_check_returncode self = Ok tt <-> returncode self = 0%Z).
  { unfold super_check_returncode.
    destruct (Z.eqb_spec (returncode self) 0); split; done. }
  destruct (Z.eqb_spec (returncode self) 1) as [Hrc|Hrc].
  - assert (Htext : (exists text, stderr self = PyStr text)
                    \/ forall text, stderr self <> PyStr text).
    { destruct (stderr self); eauto. }
    destruct Htext as [[text Herr]|Herr].
    + destruct (check_returncode_cases self text Herr)
        as [Hs|(cls & d & Hz & _)].
      * rewrite Hs. split; [exact Hok|]. intros e He. left. by apply Hsuper.
      * rewrite Hz. split; [split; [done|intros H0; congruence]|].
        intros e [= <-]. right. left. by exists cls, d.
    + rewrite (check_returncode_not_text self Hrc Herr).
      split; [split; [done|intros H0; congruence]|].
      intros e [= <-]. right. right. by repeat split.
  - assert (Hs : check_returncode self = super_check_returncode self).
    { unfold check_returncode. by destruct (Z.eqb_spec (returncode self) 1). }
    rewrite Hs. split; [exact Hok|]. intros e He. left. by apply Hsuper.
Qed.

Lemma check_returncode_outcomes_witness :
  check_returncode (mkCompletedProcess (PyStr (str_of "zfs list")) 0 PyNone PyNone)
  = Ok tt
  /\ check_returncode
       (mkCompletedProcess (PyStr (str_of "zfs list")) 1 PyNone PyNone)
     = Raise TypeError.
Proof.
  split.
  - apply (proj1 (check_returncode_outcomes _)). reflexivity.
  - destruct (proj2 (check_returncode_outcomes
       (mkCompletedProcess (PyStr (str_of "zfs list")) 1 PyNone PyNone))
       TypeError eq_refl) as [H|[(cls & d & H)|(_ & _ & _)]];
      [discriminate H|discriminate H|reflexivity].
Defined.

(** X4: the five reason strings are pairwise different, so the class raised
    for a reason does not depend on the order in which the loop of lines
    52-58 tries the classes: any list that contains the class finds it. *)
Theorem reason_determines_class :
  (forall e e', strerror e = strerror e' -> e = e')
  /\ (forall errors e,
        In e errors ->
        List.find (fun error => str_eqb (strerror e) (strerror error)) errors
        = Some e).
Proof.
  split; [exact strerror_inj|].
  induction errors as [|h errors IH]; intros e Hin; [done|].
  simpl. unfold str_eqb at 1. case_bool_decide as Hh.
  - by rewrite (strerror_inj _ _ Hh).
  - destruct Hin as [->|Hin]; [done|]. by apply IH.
Qed.

Lemma reason_determines_class_witness :
  List.find (fun error => str_eqb (strerror DatasetBusyError) (strerror error))
    [HoldTagExistsError; DatasetBusyError; DatasetNotFoundError]
  = Some DatasetBusyError.
Proof.
  apply (proj2 reason_determines_class). right. by left.
Defined.

(** ** Where the classifier looks for the message *)







(** ** More about the decoder *)

Lemma split_ne sep s : split sep s <> [].
Proof.
  destruct s as [|c s]; simpl; [done|].
  destruct (c =? sep); [done|]. by destruct (split sep s).
Qed.

Lemma join_cons sep c l ls : join sep ((c :: l) :: ls) = c :: join sep (l :: ls).
Proof. by destruct ls. Qed.

Lemma join_split sep s : join sep (split sep s) = s.
Proof.
  induction s as [|c s IH]; [reflexivity|]. simpl.
  destruct (N.eqb_spec c sep) as [->|Hc].
  - pose proof (split_ne sep s). destruct (split sep s) as [|l ls]; [done|].
    change (join sep ([] :: l :: ls)) with (sep :: join sep (l :: ls)).
    by rewrite IH.
  - pose proof (split_ne sep s). destruct (split sep s) as [|l ls]; [done|].
    by rewrite join_cons, IH.
Qed.

Lemma split_length sep s :
  length (split sep s) = S (count_occ N.eq_dec s sep).
Proof.
  induction s as [|c s IH]; [reflexivity|]. simpl.
  destruct (N.eqb_spec c sep) as [->|Hc].
  - simpl. rewrite IH. by destruct (N.eq_dec sep sep).
  - pose proof (split_ne sep s). destruct (split sep s) as [|l ls]; [done|].
    simpl in *. rewrite IH. by destruct (N.eq_dec c sep).
Qed.

Lemma split_fields (P : N -> Prop) sep s :
  Forall P s -> Forall (Forall P) (split sep s).
Proof.
  induction 1 as [|c s Hc Hs IH]; simpl; [by repeat constructor|].
  destruct (c =? sep); [by constructor|].
  destruct (split sep s) as [|l ls]; [by repeat constructor|].
  apply Forall_cons in IH as [Hl Hls]. by repeat constructor.
Qed.

Lemma split_fields_no_sep sep s :
  Forall (Forall (fun c => c <> sep)) (split sep s).
Proof.
  induction s as [|c s IH]; simpl; [by repeat constructor|].
  destruct (N.eqb_spec c sep) as [->|Hc]; [by constructor|].
  destruct (split sep s) as [|l ls]; [by repeat constructor|].
  apply Forall_cons in IH as [Hl Hls]. by repeat constructor.
Qed.

Lemma splitlines_lines_bounded n : forall s,
  (length s <= n)%nat ->
  Forall (Forall (fun c => is_linebreak c = false)) (splitlines s).
Proof.
  induction n as [|n IH]; intros s Hn.
  - destruct s; [constructor|simpl in Hn; lia].
  - destruct s as [|c s]; [constructor|]. simpl in Hn. simpl.
    destruct (is_linebreak c) eqn:Hc.
    + constructor; [constructor|].
      destruct (c =? CR); [|apply IH; lia].
      destruct s as [|d s]; [constructor|].
      destruct (d =? NL); apply IH; simpl in *; lia.
    + assert (Hs : Forall (Forall (fun c => is_linebreak c = false))
                     (splitlines s)) by (apply IH; lia).
      destruct (splitlines s) as [|l ls]; [by repeat constructor|].
      apply Forall_cons in Hs as [Hl Hls]. by repeat constructor.
Qed.

Lemma splitlines_lines s :
  Forall (Forall (fun c => is_linebreak c = false)) (splitlines s).
Proof. by apply (splitlines_lines_bounded (length s)). Qed.

Lemma splitlines_terminated l term s :
  Forall (fun c => is_linebreak c = false) l -> line_terminator term ->
  splitlines (l ++ term ++ s) = l :: splitlines s.
Proof.
  intros Hl Hterm. induction Hl as [|c l Hc Hl IH].
  - destruct Hterm as [->|(c & -> & Hc & Hcr)]; [reflexivity|].
    simpl. rewrite Hc. by destruct (N.eqb_spec c CR).
  - simpl. by rewrite Hc, IH.
Qed.

(** X5: nothing of a line is lost or merged.  A non-empty text without line
    boundaries decodes to exactly one record; its fields joined by tabs are
    the text again, there is one more field than there are tabs, and no
    field contains a tab. *)
Theorem decode_one_line s :
  s <> [] -> Forall (fun c => is_linebreak c = false) s ->
  exists fields,
    decode_output (PyStr s) = Ok (Some [fields])
    /\ join TAB fields = s
    /\ length fields = S (count_occ N.eq_dec s TAB)
    /\ Forall (Forall (fun c => c <> TAB)) fields.
Proof.
  intros Hne Hs. exists (split TAB s). simpl.
  rewrite splitlines_line by done. simpl.
  split; [reflexivity|]. split; [apply join_split|].
  split; [apply split_length|apply split_fields_no_sep].
Qed.

Lemma decode_one_line_witness :
  exists fields,
    decode_output (PyStr (TAB :: str_of "tank" ++ [TAB; TAB]))
    = Ok (Some [fields])
    /\ length fields = 4%nat.
Proof.
  destruct (decode_one_line (TAB :: str_of "tank" ++ [TAB; TAB]))
    as (fields & Hd & _ & Hl & _); [done|shape|].
  exists fields. split; [exact Hd|exact Hl].
Defined.

Lemma decode_output_records out records :
  decode_output out = Ok (Some records) -> Forall record_ok records.
Proof.
  destruct out as [| | |s|b| |]; simpl; try done.
  - intros [= <-]. pose proof (splitlines_lines s) as H.
    induction H as [|l ls Hl Hls IH]; simpl; constructor; [|exact IH].
    split; [apply split_ne|].
    pose proof (split_fields _ TAB l Hl) as H1.
    pose proof (split_fields_no_sep TAB l) as H2.
    apply Forall_forall. intros f Hf.
    apply Forall_forall. intros c Hcf. split.
    + eapply Forall_forall in H2; [|exact Hf].
      eapply Forall_forall in H2; [|exact Hcf]. exact H2.
    + eapply Forall_forall in H1; [|exact Hf].
      eapply Forall_forall in H1; [|exact Hcf]. exact H1.
  - case_bool_decide; [|done]. intros [= <-]. constructor.
Qed.

(** X6: whatever the output, every decoded record has at least one field,
    and no decoded field contains a tab or a line boundary. *)
Theorem decoded_records_ok out records :
  decode_output out = Ok (Some records) -> Forall record_ok records.
Proof. apply decode_output_records. Qed.

Lemma decoded_records_ok_witness :
  Forall record_ok [[str_of "a"; []]; [[]]; [str_of "b"]].
Proof.
  apply (decoded_records_ok
           (PyStr (str_of "a" ++ TAB :: CR :: NL :: NL :: str_of "b"))).
  reflexivity.
Defined.

(** X7: output printed one record per line decodes to the records, whatever
    the line terminator (a line feed, a carriage return and line feed, any
    other single boundary): for every sequence of records with at least one
    field each and no tab or line boundary inside a field, also when the
    last record is a single empty field. *)
Theorem decode_printed_records term records :
  line_terminator term -> Forall record_ok records ->
  decode_output (PyStr (print_records term records)) = Ok (Some records).
Proof.
  intros Hterm Hok. unfold decode_output, print_records. do 2 f_equal.
  induction Hok as [|r rs [Hne Hr] Hrs IH]; [reflexivity|].
  simpl. rewrite <- app_assoc.
  rewrite splitlines_terminated; [|by apply join_no_linebreak|done].
  simpl. f_equal; [|exact IH].
  apply split_join; [done|]. eapply Forall_impl; [exact Hr|].
  intros f Hf. eapply Forall_impl; [exact Hf|]. by intros c [? _].
Qed.

Lemma decode_printed_records_witness :
  decode_output
    (PyStr (print_records [CR; NL] [[str_of "tank"; str_of "-"]; [[]]]))
  = Ok (Some [[str_of "tank"; str_of "-"]; [[]]])
  /\ decode_output (PyStr (print_records [NL] [[[]; str_of "on"]; [[]]]))
     = Ok (Some [[[]; str_of "on"]; [[]]]).
Proof.
  split; apply decode_printed_records;
    first [ by left
          | right; exists NL; by repeat split
          | repeat (apply List.Forall_cons || apply List.Forall_nil); split;
            try done; by (apply (bool_decide_unpack _); vm_compute) ].
Defined.

(** ** More about [run] and [check_output] *)

Lemma raises_try2 {A} (Q1 Q : exn -> Prop) (body : M A) (handler : exn -> M A) :
  raises_only Q1 body -> (forall e, Q1 e -> raises_only Q (handler e)) ->
  raises_only Q (try_except body handler).
Proof.
  unfold raises_only. intros Hb Hh e. destruct body as [tr [a|e']]; simpl;
    [done|].
  specialize (Hh e' (Hb e' eq_refl) e). by destruct (handler e').
Qed.

Lemma raises_lift {A} (Q : exn -> Prop) (r : result A) :
  (forall e, r = Raise e -> Q e) -> raises_only Q (lift r).
Proof. unfold raises_only. simpl. auto. Qed.

Lemma popen_bind_args a popenargs (kw : gmap string pyval) bound :
  popen_bind (a :: popenargs) kw = Ok bound -> get "args" PyNone bound = a.
Proof.
  unfold popen_bind. intros H.
  destruct (negb _); [done|]. destruct (negb _); [done|].
  destruct (existsb _ _); [done|]. destruct (has_key "args" _); [|done].
  injection H as <-. unfold get.
  erewrite lookup_union_Some_l; [reflexivity|].
  simpl. apply lookup_insert_eq.
Qed.



(** X9: when the wait fails in any other way, the child is killed and
    waited for, and the failure is raised again unchanged. *)
Theorem local_interrupt os popenargs timeout check kw bound c id :
  popen_bind popenargs kw = Ok bound -> spawn os bound = inl c ->
  first_communicate c = Fails id ->
  run os popenargs timeout check None kw
  = ([EvPopen bound; EvCommunicate PyNone timeout; EvKill; EvWait; EvExit],
     Raise (OtherError id)).
Proof.
  intros Hb Hs Hc. simpl. unfold run_local, Popen. rewrite Hb. simpl.
  rewrite Hs. simpl. by rewrite Hc.
Qed.

Lemma local_interrupt_witness :
  snd (run (mkLocalOs (fun _ => inl (mkChild (Fails 4) ([], []) 0)))
         [PyStr (str_of "zfs list")] PyNone (PyBool true) None ∅)
  = Raise (OtherError 4).
Proof.
  destruct (popen_bind [PyStr (str_of "zfs list")] ∅) as [bound|e] eqn:Hb;
    [|by vm_compute in Hb].
  by rewrite (local_interrupt
                (mkLocalOs (fun _ => inl (mkChild (Fails 4) ([], []) 0)))
                _ _ _ _ bound (mkChild (Fails 4) ([], []) 0) 4 Hb eq_refl eq_refl).
Defined.

(** X10: a local run that made any call started with the spawn and ended
    with the exit handler, and in between the child was either polled for
    its exit status or killed. *)
Theorem local_child_reaped os popenargs timeout check kw :
  let tr := fst (run os popenargs timeout check None kw) in
  tr = []
  \/ ((exists bound, head tr = Some (EvPopen bound))
      /\ last tr = Some EvExit
      /\ (In EvPoll tr \/ In EvKill tr)).
Proof.
  cbv zeta. simpl. unfold run_local, Popen.
  destruct (popen_bind popenargs kw) as [bound|e]; [|by left].
  simpl. destruct (spawn os bound) as [c|id]; [|by left].
  right. simpl.
  destruct (first_communicate c) as [raw| |id]; simpl.
  - destruct (truthy check && negb (exit_status c =? 0)%Z); simpl;
      [|destruct (first_arg popenargs); simpl];
      (split; [by eexists|]); (split; [reflexivity|]); left; simpl; tauto.
  - (split; [by eexists|]); (split; [reflexivity|]); right; simpl; tauto.
  - (split; [by eexists|]); (split; [reflexivity|]); right; simpl; tauto.
Qed.

(** X11: a command that ran to its end locally is an error only under
    [check]: without it the result carries the exit status, whatever it is;
    with it a non-zero status raises [CalledProcessError] with the status,
    the command and both captured streams. *)
Theorem local_completion os a popenargs timeout check kw bound c raw :
  popen_bind (a :: popenargs) kw = Ok bound -> spawn os bound = inl c ->
  first_communicate c = Returns raw ->
  run os (a :: popenargs) timeout check None kw
  = ([EvPopen bound; EvCommunicate PyNone timeout; EvPoll; EvExit],
     if truthy check && negb (exit_status c =? 0)%Z
     then Raise (CalledProcessError (exit_status c) a
                   (captured bound "stdout" (fst raw))
                   (captured bound "stderr" (snd raw)))
     else Ok (mkCompletedProcess a (exit_status c)
                (captured bound "stdout" (fst raw))
                (captured bound "stderr" (snd raw)))).
Proof.
  intros Hb Hs Hc. simpl. unfold run_local, Popen. rewrite Hb. simpl.
  rewrite Hs. simpl. rewrite Hc. simpl.
  rewrite (popen_bind_args _ _ _ _ Hb).
  by destruct (truthy check && negb (exit_status c =? 0)%Z).
Qed.

Lemma local_completion_witness :
  snd (run (mkLocalOs (fun _ => inl (mkChild (Returns ([], str_of "oops")) ([], []) 2)))
         [PyStr (str_of "zfs list")] PyNone (PyBool false) None
         {[ "stderr" := PIPE ]})
  = Ok (mkCompletedProcess (PyStr (str_of "zfs list")) 2 PyNone
          (PyBytes (str_of "oops"))).
Proof.
  destruct (popen_bind [PyStr (str_of "zfs list")] {[ "stderr" := PIPE ]})
    as [bound|e] eqn:Hb; [|by vm_compute in Hb].
  rewrite (local_completion
             (mkLocalOs (fun _ => inl (mkChild (Returns ([], str_of "oops"))
                                         ([], []) 2)))
             _ _ _ _ _ bound (mkChild (Returns ([], str_of "oops")) ([], []) 2)
             ([], str_of "oops") Hb eq_refl eq_refl).
  vm_compute in Hb. injection Hb as <-. reflexivity.
Defined.

Lemma bind_lift_ok {A B} (x : A) (f : A -> M B) : bind (lift (Ok x)) f = f x.
Proof. unfold bind, lift. by destruct (f x). Qed.

Lemma remote_args_first popenargs cmd :
  remote_args popenargs = Ok cmd -> exists a, first_arg popenargs = Ok a.
Proof. destruct popenargs as [|a l]; [done|]. by exists a. Qed.

(** X12: a remote timeout never carries partial output.  Whatever the remote
    branch raises, it is not the transport's own [socket.timeout]; and a
    [TimeoutExpired] it raises names the first positional argument and the
    timeout, with both streams absent. *)
Theorem remote_timeout_has_no_output os ssh popenargs timeout check kw tr e :
  run os popenargs timeout check (Some ssh) kw = (tr, Raise e) ->
  e <> SocketTimeout
  /\ forall cmd t out err,
       e = TimeoutExpired cmd t out err ->
       first_arg popenargs = Ok cmd /\ t = timeout
       /\ out = PyNone /\ err = PyNone.
Proof.
  set (Q := fun e : exn =>
    e <> SocketTimeout
    /\ forall cmd t out err,
         e = TimeoutExpired cmd t out err ->
         first_arg popenargs = Ok cmd /\ t = timeout
         /\ out = PyNone /\ err = PyNone).
  set (Q1 := fun e : exn =>
    match e with TimeoutExpired _ _ _ _ => False | _ => True end).
  assert (H : raises_only Q (run os popenargs timeout check (Some ssh) kw)).
  { simpl. unfold run_remote, copyfileobj.
    destruct (remote_args popenargs) as [cmd|e0] eqn:Hcmd.
    2:{ intros e' [= <-]. unfold remote_args in Hcmd.
        repeat case_match; simplify_eq; by split. }
    destruct (remote_args_first _ _ Hcmd) as [a Ha]. rewrite Ha.
    rewrite !bind_lift_ok. apply raises_bind.
    - apply (raises_try2 Q1).
      + repeat raises_step.
      + intros e0 He0. destruct e0; try done; intros ? [= <-]; split;
          try done; by intros ? ? ? ? [= <- <- <- <-].
    - intros r. destruct (_ && _); [|by intros ? [=]].
      intros ? [= <-]. by split. }
  intros Hrun. specialize (H e). rewrite Hrun in H. by apply H.
Qed.

Lemma remote_timeout_has_no_output_witness :
  snd (run (mkLocalOs (fun _ => inr 2)) [PyStr (str_of "zfs list")] (PyInt 5)
         (PyBool false)
         (Some (mkSshClient (fun _ _ _ => Returns tt) (fun _ => Returns tt)
                  (Returns tt) (Returns 0%Z) TimesOut (Returns [])))
         ∅)
  = Raise (TimeoutExpired (PyStr (str_of "zfs list")) (PyInt 5) PyNone PyNone).
Proof.
  destruct (run (mkLocalOs (fun _ => inr 2)) [PyStr (str_of "zfs list")]
              (PyInt 5) (PyBool false)
              (Some (mkSshClient (fun _ _ _ => Returns tt) (fun _ => Returns tt)
                       (Returns tt) (Returns 0%Z) TimesOut (Returns [])))
              ∅) as [tr [r|e]] eqn:Hrun; [by vm_compute in Hrun|].
  pose proof (remote_timeout_has_no_output _ _ _ _ _ _ _ _ Hrun) as [_ H].
  vm_compute in Hrun. injection Hrun as _ <-.
  destruct (H _ _ _ _ eq_refl) as (_ & _ & _ & _). reflexivity.
Defined.

(** ** What reaches the remote input handle, and when it is closed *)

Lemma run_remote_closed_inv ssh popenargs timeout check kw :
  In EvStdinClose (fst (run_remote ssh popenargs timeout check kw)) ->
  exists cmd,
    remote_args popenargs = Ok cmd
    /\ exec_command ssh cmd (tail popenargs) timeout = Returns tt
    /\ (truthy (get "stdin" PyNone kw) = false
        \/ exists id, kw !! "stdin" = Some (PyObj id)
             /\ copy_to_stdin ssh (PyObj id) = Returns tt).
Proof.
  unfold run_remote.
  destruct (remote_args popenargs) as [cmd|e0] eqn:Hcmd; [|by intros []].
  destruct (remote_args_first _ _ Hcmd) as [a Ha]. rewrite Ha, !bind_lift_ok.
  intros Hin. exists cmd. split; [done|].
  destruct (exec_command ssh cmd (tail popenargs) timeout) as [[]| |n] eqn:He;
    [|by destruct Hin as [|[]]..].
  split; [done|].
  destruct (truthy (get "stdin" PyNone kw)) eqn:Ht; [|by left]. right.
  unfold get in Ht, Hin. destruct (kw !! "stdin") as [v|] eqn:Hk; [|done].
  unfold copyfileobj in Hin.
  destruct v as [ | | | | | |id]; try by destruct Hin as [|[|[]]].
  exists id. split; [done|].
  by destruct (copy_to_stdin ssh (PyObj id)) as [[]| |n];
    [|destruct Hin as [|[|[]]]..].
Qed.

Lemma run_remote_copy_raises ssh popenargs timeout check kw cmd v e :
  remote_args popenargs = Ok cmd ->
  exec_command ssh cmd (tail popenargs) timeout = Returns tt ->
  kw !! "stdin" = Some v -> truthy v = true ->
  snd (copyfileobj ssh v 131072) = Raise e -> e <> SocketTimeout ->
  run_remote ssh popenargs timeout check kw
  = ([EvExecCommand cmd (tail popenargs) timeout; EvCopyFileObj v 131072],
     Raise e).
Proof.
  intros Hcmd Hexec Hk Ht Hc He. unfold run_remote.
  destruct (remote_args_first _ _ Hcmd) as [a Ha].
  rewrite Hcmd, Ha, !bind_lift_ok, Hexec. unfold get. rewrite Hk, Ht.
  change (128 * 1024)%Z with 131072%Z.
  unfold copyfileobj in *. simpl in Hc. rewrite Hc.
  by destruct e.
Qed.

(** C10, as stated, fails: the remote input handle is not closed on every
    path that is not a timeout.  [subprocess.PIPE] is truthy and has no
    [read], so the copy raises [AttributeError]; a file object whose [read]
    fails raises its own exception.  Either goes through the handler for
    [socket.timeout] untouched and the close is never reached. *)
Lemma remote_input_close_counterexample :
  let os := mkLocalOs (fun _ => inr 2) in
  let cmd := PyStr (str_of "zfs receive tank/data") in
  let ssh := mkSshClient (fun _ _ _ => Returns tt) (fun _ => Returns tt)
               (Returns tt) (Returns 0%Z) (Returns []) (Returns []) in
  let broken := mkSshClient (fun _ _ _ => Returns tt) (fun _ => Fails 5)
                  (Returns tt) (Returns 0%Z) (Returns []) (Returns []) in
  run os [cmd] PyNone (PyBool false) (Some ssh) {[ "stdin" := PIPE ]}
  = ([EvExecCommand cmd [] PyNone; EvCopyFileObj PIPE 131072],
     Raise AttributeError)
  /\ ~ In EvStdinClose
         (fst (run os [cmd] PyNone (PyBool false) (Some ssh)
                 {[ "stdin" := PIPE ]}))
  /\ run os [cmd] PyNone (PyBool false) (Some broken) {[ "stdin" := PyObj 7 ]}
     = ([EvExecCommand cmd [] PyNone; EvCopyFileObj (PyObj 7) 131072],
        Raise (OtherError 5))
  /\ ~ In EvStdinClose
         (fst (run os [cmd] PyNone (PyBool false) (Some broken)
                 {[ "stdin" := PyObj 7 ]})).
Proof.
  cbv zeta. split; [by vm_compute|]. split; [by intros [|[|[]]]|].
  split; [by vm_compute|]. by intros [|[|[]]].
Qed.

(** C10, amended: in the remote branch the value under [input] plays no
    part; the only thing copied to the remote input handle is the value under
    [stdin], and only when it is truthy.  The remote input handle is closed
    exactly when the command was started and the copy, if one was made,
    returned: whether or not anything was copied, but not when the copy
    raises.  When the copy raises anything but [socket.timeout] (an
    [AttributeError] for [subprocess.PIPE], an error of the file object), the
    calls made are [exec_command] and the copy, and [run] raises that same
    exception. *)
Theorem remote_input_from_stdin_only os ssh popenargs timeout check
    (kw : gmap string pyval) :
  (forall v,
     run os popenargs timeout check (Some ssh) (<["input" := v]> kw)
     = run os popenargs timeout check (Some ssh) kw)
  /\ (forall src len,
        In (EvCopyFileObj src len)
          (fst (run os popenargs timeout check (Some ssh) kw)) ->
        kw !! "stdin" = Some src /\ truthy src = true /\ len = 131072%Z)
  /\ (truthy (get "stdin" PyNone kw) = false ->
      forall src len,
        ~ In (EvCopyFileObj src len)
            (fst (run os popenargs timeout check (Some ssh) kw)))
  /\ (forall cmd,
        remote_args popenargs = Ok cmd ->
        exec_command ssh cmd (tail popenargs) timeout = Returns tt ->
        truthy (get "stdin" PyNone kw) = false
        \/ (exists id, kw !! "stdin" = Some (PyObj id)
              /\ copy_to_stdin ssh (PyObj id) = Returns tt) ->
        In EvStdinClose (fst (run os popenargs timeout check (Some ssh) kw)))
  /\ (In EvStdinClose (fst (run os popenargs timeout check (Some ssh) kw)) ->
      exists cmd,
        remote_args popenargs = Ok cmd
        /\ exec_command ssh cmd (tail popenargs) timeout = Returns tt
        /\ (truthy (get "stdin" PyNone kw) = false
            \/ exists id, kw !! "stdin" = Some (PyObj id)
                 /\ copy_to_stdin ssh (PyObj id) = Returns tt))
  /\ (forall cmd v e,
        remote_args popenargs = Ok cmd ->
        exec_command ssh cmd (tail popenargs) timeout = Returns tt ->
        kw !! "stdin" = Some v -> truthy v = true ->
        snd (copyfileobj ssh v 131072) = Raise e -> e <> SocketTimeout ->
        run os popenargs timeout check (Some ssh) kw
        = ([EvExecCommand cmd (tail popenargs) timeout; EvCopyFileObj v 131072],
           Raise e)).
Proof.
  simpl. split; [|split; [|split; [|split; [|split]]]].
  - intros v. apply run_remote_stdin. by rewrite lookup_insert_ne.
  - intros src len. apply run_remote_copies.
  - intros Hf src len Hin. apply run_remote_copies in Hin as (Hk & Ht & _).
    unfold get in Hf. rewrite Hk in Hf. congruence.
  - intros cmd. apply run_remote_closes.
  - apply run_remote_closed_inv.
  - intros cmd v e. apply run_remote_copy_raises.
Qed.

Lemma remote_input_from_stdin_only_witness :
  let ssh := mkSshClient (fun _ _ _ => Returns tt) (fun _ => Returns tt)
               (Returns tt) (Returns 0%Z) (Returns []) (Returns []) in
  let os := mkLocalOs (fun _ => inr 2) in
  let cmd := [PyStr (str_of "zfs receive tank/data")] in
  In EvStdinClose
    (fst (run os cmd PyNone (PyBool false) (Some ssh)
            {[ "input" := PyBytes (str_of "payload") ]}))
  /\ In EvStdinClose
       (fst (run os cmd PyNone (PyBool false) (Some ssh)
               {[ "stdin" := PyObj 7 ]}))
  /\ ~ In (EvCopyFileObj (PyBytes (str_of "payload")) 131072)
         (fst (run os cmd PyNone (PyBool false) (Some ssh)
                 {[ "input" := PyBytes (str_of "payload") ]}))
  /\ run os cmd PyNone (PyBool false) (Some ssh) {[ "stdin" := PyInt 0 ]}
     = run os cmd PyNone (PyBool false) (Some ssh) ∅
  /\ run os cmd PyNone (PyBool false) (Some ssh) {[ "stdin" := PIPE ]}
     = ([EvExecCommand (PyStr (str_of "zfs receive tank/data")) [] PyNone;
         EvCopyFileObj PIPE 131072],
        Raise AttributeError).
Proof.
  cbv zeta. split; [|split; [|split; [|split]]].
  - eapply (proj1 (proj2 (proj2 (proj2
              (remote_input_from_stdin_only _ _ _ _ _ _)))));
      [reflexivity|reflexivity|]. by left.
  - eapply (proj1 (proj2 (proj2 (proj2
              (remote_input_from_stdin_only _ _ _ _ _ _)))));
      [reflexivity|reflexivity|]. right. by exists 7.
  - apply (proj1 (proj2 (proj2 (remote_input_from_stdin_only _ _ _ _ _ _)))).
    reflexivity.
  - by vm_compute.
  - apply (proj2 (proj2 (proj2 (proj2 (proj2
             (remote_input_from_stdin_only (mkLocalOs (fun _ => inr 2))
                (mkSshClient (fun _ _ _ => Returns tt) (fun _ => Returns tt)
                   (Returns tt) (Returns 0%Z) (Returns []) (Returns []))
                [PyStr (str_of "zfs receive tank/data")] PyNone (PyBool false)
                {[ "stdin" := PIPE ]})))))
             (PyStr (str_of "zfs receive tank/data")) PIPE AttributeError);
      [reflexivity|reflexivity|reflexivity|reflexivity|reflexivity|discriminate].
Defined.

(** X13: the remote branch makes its calls in one fixed order: the command is
    started, the [stdin] object (if truthy) is copied, the remote input is
    closed, the exit status is awaited, and only then the output and the
    error stream are read; a run that is cut short made a prefix of these
    calls. *)
Theorem remote_call_order os ssh popenargs timeout check kw :
  match remote_args popenargs with
  | Ok cmd =>
      exists n,
        fst (run os popenargs timeout check (Some ssh) kw)
        = take n (remote_calls cmd (tail popenargs) timeout kw)
  | Raise _ => fst (run os popenargs timeout check (Some ssh) kw) = []
  end.
Proof.
  simpl. unfold run_remote, remote_calls, copyfileobj.
  destruct (remote_args popenargs) as [cmd|e0] eqn:Hcmd; [|reflexivity].
  destruct (remote_args_first _ _ Hcmd) as [a ->]. rewrite !bind_lift_ok.
  generalize (get "stdin" PyNone kw). intros v.
  unfold bind, try_except, call, ret, raise, answer.
  destruct (exec_command ssh cmd (tail popenargs) timeout) as [[]| |id];
    [|by exists 1%nat|by exists 1%nat].
  destruct (truthy v).
  - destruct (match v with
              | PyObj _ =>
                  match copy_to_stdin ssh v with
                  | Returns a0 => Ok a0
                  | TimesOut => Raise SocketTimeout
                  | Fails id => Raise (OtherError id)
                  end
              | _ => Raise AttributeError
              end) as [[]|e1];
      [|destruct e1; by exists 2%nat].
    destruct (stdin_close ssh) as [[]| |id]; [|by exists 3%nat|by exists 3%nat].
    destruct (recv_exit_status ssh) as [rc| |id];
      [|by exists 4%nat|by exists 4%nat].
    destruct (stdout_readlines ssh) as [lo| |id];
      [|by exists 5%nat|by exists 5%nat].
    destruct (stderr_readlines ssh) as [le| |id];
      [|by exists 6%nat|by exists 6%nat].
    simpl. destruct (truthy check && negb (rc =? 0)%Z); by exists 6%nat.
  - destruct (stdin_close ssh) as [[]| |id]; [|by exists 2%nat|by exists 2%nat].
    destruct (recv_exit_status ssh) as [rc| |id];
      [|by exists 3%nat|by exists 3%nat].
    destruct (stdout_readlines ssh) as [lo| |id];
      [|by exists 4%nat|by exists 4%nat].
    destruct (stderr_readlines ssh) as [le| |id];
      [|by exists 5%nat|by exists 5%nat].
    simpl. destruct (truthy check && negb (rc =? 0)%Z); by exists 5%nat.
Qed.

Lemma all_str_map l : all_str (List.map PyStr l) = Some l.
Proof. induction l as [|x l IH]; [reflexivity|]. simpl. by rewrite IH. Qed.

(** X14: a remote command given as a sequence of words is sent as the words
    joined by single spaces, with no quoting: an argument that contains a
    space is sent exactly like two arguments, and a sequence that has
    anything but strings in it is a [TypeError] before any call. *)
Theorem remote_command_is_joined os ssh timeout check kw :
  (forall words extra,
     remote_args (PyList (List.map PyStr words) :: extra)
     = Ok (PyStr (join SP words)))
  /\ (forall x y words,
        remote_args [PyList (List.map PyStr ((x ++ SP :: y) :: words))]
        = remote_args [PyList (List.map PyStr (x :: y :: words))])
  /\ (forall items extra,
        all_str items = None ->
        run os (PyList items :: extra) timeout check (Some ssh) kw
        = ([], Raise TypeError)).
Proof.
  split; [|split].
  - intros words extra. simpl. by rewrite all_str_map.
  - intros x y words. simpl. rewrite !all_str_map. do 2 f_equal.
    destruct words as [|w ws]; [reflexivity|].
    change (join SP ((x ++ SP :: y) :: w :: ws))
      with ((x ++ SP :: y) ++ SP :: join SP (w :: ws)).
    by rewrite <- app_assoc.
  - intros items extra Hn. simpl. unfold run_remote. simpl. by rewrite Hn.
Qed.

Lemma remote_command_is_joined_witness :
  run (mkLocalOs (fun _ => inr 2))
    [PyList [PyStr (str_of "zfs"); PyInt 1]] PyNone (PyBool false)
    (Some (mkSshClient (fun _ _ _ => Returns tt) (fun _ => Returns tt)
             (Returns tt) (Returns 0%Z) (Returns []) (Returns [])))
    ∅
  = ([], Raise TypeError).
Proof.
  apply (proj2 (proj2 (remote_command_is_joined _ _ _ _ _))). reflexivity.
Defined.

(** X15: a remote command that ran to its end gives the exit status and the
    lines of each stream joined into one text; it is an error only under
    [check], which raises [CalledProcessError] with the status, the first
    positional argument and both texts. *)
Theorem remote_completion os ssh a extra timeout check kw cmd rc lo le :
  remote_args (a :: extra) = Ok cmd ->
  exec_command ssh cmd extra timeout = Returns tt ->
  truthy (get "stdin" PyNone kw) = false ->
  stdin_close ssh = Returns tt -> recv_exit_status ssh = Returns rc ->
  stdout_readlines ssh = Returns lo -> stderr_readlines ssh = Returns le ->
  run os (a :: extra) timeout check (Some ssh) kw
  = (remote_calls cmd extra timeout kw,
     if truthy check && negb (rc =? 0)%Z
     then Raise (CalledProcessError rc a (PyStr (concat lo)) (PyStr (concat le)))
     else Ok (mkCompletedProcess a rc (PyStr (concat lo)) (PyStr (concat le)))).
Proof.
  intros Hcmd Hexec Hstdin Hclose Hrecv Hout Herr.
  simpl. unfold run_remote, remote_calls. rewrite Hcmd. simpl first_arg.
  rewrite !bind_lift_ok. simpl tail.
  rewrite Hexec, Hstdin, Hclose, Hrecv, Hout, Herr. simpl.
  by destruct (truthy check && negb (rc =? 0)%Z).
Qed.

Lemma remote_completion_witness :
  snd (run (mkLocalOs (fun _ => inr 2))
         [PyList [PyStr (str_of "zfs"); PyStr (str_of "list")]] PyNone
         (PyBool true)
         (Some (mkSshClient (fun _ _ _ => Returns tt) (fun _ => Returns tt)
                  (Returns tt) (Returns 1%Z) (Returns [])
                  (Returns [str_of "cannot open x: "; str_of "no pool"])))
         ∅)
  = Raise (CalledProcessError 1
             (PyList [PyStr (str_of "zfs"); PyStr (str_of "list")]) (PyStr [])
             (PyStr (str_of "cannot open x: no pool"))).
Proof.
  rewrite (remote_completion (mkLocalOs (fun _ => inr 2))
                (mkSshClient (fun _ _ _ => Returns tt) (fun _ => Returns tt)
                   (Returns tt) (Returns 1%Z) (Returns [])
                   (Returns [str_of "cannot open x: "; str_of "no pool"]))
                (PyList [PyStr (str_of "zfs"); PyStr (str_of "list")]) []
                PyNone (PyBool true) ∅ (PyStr (str_of "zfs list")) 1 []
                [str_of "cannot open x: "; str_of "no pool"]);
    reflexivity.
Defined.

(** X16: the two backends never mix: with a session no local child is
    spawned, waited for or killed, and without one nothing is sent to a
    session. *)
Theorem backends_do_not_mix os popenargs timeout check kw :
  (forall ssh, Forall (fun ev => remote_event ev = true)
                 (fst (run os popenargs timeout check (Some ssh) kw)))
  /\ Forall (fun ev => local_event ev = true)
       (fst (run os popenargs timeout check None kw)).
Proof.
  split.
  - intros ssh. simpl. unfold run_remote, copyfileobj. by repeat trace_step.
  - simpl. unfold run_local, Popen. by repeat trace_step.
Qed.

(** X17: [run] needs the command as its first positional argument.  Without
    any positional argument the remote branch raises [IndexError] before any
    call; the local branch, given the command as the [args] keyword, runs
    the child to its end and only then raises [IndexError], instead of
    returning the result. *)
Theorem run_without_positional_command os timeout check kw :
  (forall ssh, run os [] timeout check (Some ssh) kw = ([], Raise IndexError))
  /\ (forall bound c raw,
        popen_bind [] kw = Ok bound -> spawn os bound = inl c ->
        first_communicate c = Returns raw ->
        truthy check && negb (exit_status c =? 0)%Z = false ->
        run os [] timeout check None kw
        = ([EvPopen bound; EvCommunicate PyNone timeout; EvPoll; EvExit],
           Raise IndexError)).
Proof.
  split; [reflexivity|].
  intros bound c raw Hb Hs Hc Hchk. simpl. unfold run_local, Popen.
  rewrite Hb. simpl. rewrite Hs. simpl. rewrite Hc. simpl. by rewrite Hchk.
Qed.

Lemma run_without_positional_command_witness :
  snd (run (mkLocalOs (fun _ => inl (mkChild (Returns ([], [])) ([], []) 0)))
         [] PyNone (PyBool false) None
         {[ "args" := PyList [PyStr (str_of "ls")] ]})
  = Raise IndexError.
Proof.
  destruct (popen_bind [] {[ "args" := PyList [PyStr (str_of "ls")] ]})
    as [bound|e] eqn:Hb; [|by vm_compute in Hb].
  by rewrite (proj2 (run_without_positional_command
                (mkLocalOs (fun _ => inl (mkChild (Returns ([], [])) ([], []) 0)))
                PyNone (PyBool false) _)
              bound (mkChild (Returns ([], [])) ([], []) 0) ([], [])
              Hb eq_refl eq_refl eq_refl).
Defined.

(** X18: [check_output] refuses the keywords it writes out itself before
    anything is run.  With [stdout] among the keywords it raises the
    [ValueError] of line 70; with [universal_newlines] and no [stdout], the
    one of line 72; and with [stderr] and neither of these, the call of line
    79 passes [stderr] twice, which is a [TypeError].  In all three cases no
    process has been spawned and no session command started, whatever the
    other arguments are. *)
Theorem check_output_reserved_keywords os popenargs timeout ssh kw :
  (has_key "stdout" kw = true ->
   check_output os popenargs timeout ssh kw
   = ([], Raise (ValueError
                   "stdout argument not allowed, it will be overridden.")))
  /\ (has_key "stdout" kw = false ->
      has_key "universal_newlines" kw = true ->
      check_output os popenargs timeout ssh kw
      = ([], Raise (ValueError
               "universal_newlines argument not allowed, it will be overridden.")))
  /\ (has_key "stdout" kw = false ->
      has_key "universal_newlines" kw = false ->
      has_key "stderr" kw = true ->
      check_output os popenargs timeout ssh kw = ([], Raise TypeError)).
Proof.
  split; [|split].
  - intros H1. unfold check_output. by rewrite H1.
  - intros H1 H2. unfold check_output. by rewrite H1, H2.
  - intros H1 H2 H3. rewrite check_output_after_run by done.
    unfold call_run, fixed_keywords, has_key in *. cbn [existsb].
    rewrite !normalize_input_lookup by done.
    destruct (kw !! "stdout"); [done|]. by destruct (kw !! "stderr").
Qed.

Lemma check_output_reserved_keywords_witness :
  check_output (mkLocalOs (fun _ => inr 2)) [PyStr (str_of "zfs list")] PyNone
    None {[ "universal_newlines" := PyBool false ]}
  = ([], Raise (ValueError
                  "universal_newlines argument not allowed, it will be overridden."))
  /\ check_output (mkLocalOs (fun _ => inr 2)) [PyStr (str_of "zfs list")]
       PyNone None {[ "stderr" := PIPE ]}
     = ([], Raise TypeError).
Proof.
  split.
  - apply (proj1 (proj2 (check_output_reserved_keywords _ _ _ _ _)));
      reflexivity.
  - apply (proj2 (proj2 (check_output_reserved_keywords _ _ _ _ _)));
      reflexivity.
Defined.

(** X19: when [check_output] returns, it returns a list of records, never
    [None]: both streams are always captured as text, so the [out is None]
    case of line 84 does not arise; and every record has at least one field,
    free of tabs and line boundaries. *)
Theorem check_output_returns_records os popenargs timeout ssh kw tr v :
  check_output os popenargs timeout ssh kw = (tr, Ok v) ->
  exists records, v = Some records /\ Forall record_ok records.
Proof.
  intros H.
  destruct (has_key "stdout" kw) eqn:H1;
    [unfold check_output in H; by rewrite H1 in H|].
  destruct (has_key "universal_newlines" kw) eqn:H2;
    [unfold check_output in H; by rewrite H1, H2 in H|].
  rewrite check_output_after_run in H by done.
  pose proof (call_run_captures_text os popenargs timeout ssh
                (normalize_input kw)) as Htext.
  destruct (call_run _ _ _ _ _) as [tr' [r|e]]; [|done].
  destruct (Htext r eq_refl) as (out & err & Ho & _).
  destruct (check_returncode r) as [[]|e]; [|done].
  rewrite Ho in H. simpl in H. injection H as _ <-.
  eexists. split; [reflexivity|].
  apply (decode_output_records (PyStr out)). reflexivity.
Qed.

Lemma check_output_returns_records_witness :
  exists records,
    snd (check_output
           (mkLocalOs (fun _ => inl (mkChild (Returns ([], [])) ([], []) 0)))
           [PyStr (str_of "zfs list")] PyNone None ∅)
    = Ok (Some records).
Proof.
  destruct (check_output
              (mkLocalOs (fun _ => inl (mkChild (Returns ([], [])) ([], []) 0)))
              [PyStr (str_of "zfs list")] PyNone None ∅) as [tr [v|e]] eqn:H;
    [|by vm_compute in H].
  destruct (check_output_returns_records _ _ _ _ _ _ _ H) as (records & -> & _).
  by exists records.
Defined.
